(** * JsonObject.cpp: the owning JSON Document and the borrowing JSON View

    A shallow embedding of [Aws::Crt::JsonObject] (the owning, mutable
    Document) and [Aws::Crt::JsonView] (the non-owning cursor) of
    [source/JsonObject.cpp].

    The two classes sit on top of the cJSON tree library.  The library's
    own code lies outside [JsonObject.cpp]; it is modelled here from the
    specification, on a record that has the fields the C++ code
    dereferences ([child], [string], [valuedouble], ...).  Nodes carry the
    address they were allocated at, and an allocation state records which
    addresses are live, so that ownership, duplication, adoption and
    release can be told apart.

    Conventions of the embedding:
    - a nullable [cJSON *] is an [option cJSON];
    - a method that mutates its receiver returns the new receiver;
    - library calls that allocate or free run in the state monad [M] over
      the allocation state;
    - a receiver and the objects passed to it by reference are distinct
      objects, except for the assignment operators, whose code tests
      [this == &other] and whose argument is therefore an [arg];
    - [AWS_ASSERT] is the fatal check of the specification: accessors
      that may abort return a [checked] result. *)

From Stdlib Require Import ZArith NArith String Ascii List Bool Lia.
From Stdlib Require Import Floats.SpecFloat.
From stdpp Require Import base gmap sets list strings.
Import ListNotations.

#[local] Set Warnings "-register-all,-clear-no-such-hyp".
Local Open Scope N_scope.
Local Open Scope list_scope.

(** ** Allocation state *)

(** The account of the nodes the tree library has allocated and not yet
    freed.  Addresses are handed out in increasing order and never
    reused, so an address that is not [live] has either been released or
    not been allocated yet ([next] tells which). *)
Record Heap : Type := mkHeap { next : N; live : gset N }.

Definition M (A : Type) : Type := Heap -> A * Heap.

Definition ret {A : Type} (a : A) : M A := fun h => (a, h).

Definition bind {A B : Type} (m : M A) (k : A -> M B) : M B :=
  fun h => let (a, h') := m h in k a h'.

Declare Scope heap_scope.
Delimit Scope heap_scope with heap.
Notation "x <- c1 ;; c2" := (bind c1 (fun x => c2))
  (at level 100, c1 at next level, right associativity) : heap_scope.
Notation "c1 ;; c2" := (bind c1 (fun _ => c2))
  (at level 100, right associativity) : heap_scope.
Local Open Scope heap_scope.

Definition malloc : M N :=
  fun h => (next h, mkHeap (N.succ (next h)) ({[ next h ]} ∪ live h)).

Definition free (s : gset N) : M unit :=
  fun h => (tt, mkHeap (next h) (live h ∖ s)).

Definition heap0 : Heap := mkHeap 0 ∅.

(** ** Strings and numbers *)

Definition String : Type := string.
Bind Scope string_scope with String.

(** [std::string::c_str()] read as a C string: the characters before the
    first NUL. *)
Fixpoint c_str (s : String) : string :=
  match s with
  | EmptyString => EmptyString
  | String.String c s' =>
      if Ascii.eqb c Ascii.zero then EmptyString else String.String c (c_str s')
  end.

Definition newline : ascii := ascii_of_nat 10.

(** An IEEE-754 binary64 value. *)
Definition double : Type := spec_float.

Definition double_zero : double := S754_zero false.

(** [static_cast<double>(value)] for an [int] or an [int64_t]: the nearest
    binary64 value, ties to even. *)
Definition static_cast_double (value : Z) : double :=
  binary_normalize 53 1024 value 0 false.

(** Modelled from the spec: two numbers are the same for the structural
    comparison when they are the same binary64 value. *)
Definition double_eqb (a b : double) : bool :=
  match a, b with
  | S754_zero s, S754_zero s' => Bool.eqb s s'
  | S754_infinity s, S754_infinity s' => Bool.eqb s s'
  | S754_nan, S754_nan => true
  | S754_finite s m e, S754_finite s' m' e' =>
      Bool.eqb s s' && Pos.eqb m m' && Z.eqb e e'
  | _, _ => false
  end.

(** [tolower] of the C library on ASCII, for the mode of the comparison
    that ignores case (the code never selects it). *)
Definition tolower (c : ascii) : ascii :=
  let n := N_of_ascii c in
  if (65 <=? n) && (n <=? 90) then ascii_of_N (n + 32) else c.

Fixpoint lowercase (s : string) : string :=
  match s with
  | EmptyString => EmptyString
  | String.String c s' => String.String (tolower c) (lowercase s')
  end.

(** ** The tree library (cJSON) *)

(** Modelled from the spec: the node kinds of the external tree library
    (section 3, TreeNode: null, bool, number, string, array, object), with
    the boolean kind split as the code tests it ([cJSON_IsTrue]) and the
    invalid marker the text constructor checks ([cJSON_IsInvalid]).  The
    header [cJSON.h] is missing. *)
Inductive cJSON_type : Type :=
  | cJSON_Invalid | cJSON_False | cJSON_True | cJSON_NULL
  | cJSON_Number | cJSON_String | cJSON_Array | cJSON_Object.

Definition cJSON_type_eqb (a b : cJSON_type) : bool :=
  match a, b with
  | cJSON_Invalid, cJSON_Invalid | cJSON_False, cJSON_False
  | cJSON_True, cJSON_True | cJSON_NULL, cJSON_NULL
  | cJSON_Number, cJSON_Number | cJSON_String, cJSON_String
  | cJSON_Array, cJSON_Array | cJSON_Object, cJSON_Object => true
  | _, _ => false
  end.

(** Modelled from the spec: the node structure of the external tree
    library, whose declaration ([struct cJSON]) is missing.  The fields are
    the ones [JsonObject.cpp] reads: [type], [valuestring], [valuedouble],
    the name [string] (here [string_]) and [child]; the [next] chain of the
    children is the list [child], in insertion order.  [self] is the address
    of the node. *)
Inductive cJSON : Type := mk_cJSON {
  self : N;
  type : cJSON_type;
  valuestring : option string;
  valuedouble : double;
  string_ : option string;
  child : list cJSON
}.

(** The addresses of a node and of everything below it. *)
Fixpoint nodes (item : cJSON) : gset N :=
  match item with
  | mk_cJSON a _ _ _ _ ch =>
      {[ a ]} ∪ (fix all (l : list cJSON) : gset N :=
                   match l with
                   | [] => ∅
                   | c :: l' => nodes c ∪ all l'
                   end) ch
  end.

Definition nodes_list (l : list cJSON) : gset N :=
  foldr (fun c s => nodes c ∪ s) ∅ l.

Definition nodes_opt (item : option cJSON) : gset N :=
  match item with
  | None => ∅
  | Some t => nodes t
  end.

(** Modelled from the spec: the allocation of one node, unnamed and
    childless, common to the constructors below. *)
Definition new_item (ty : cJSON_type) (vs : option string) (vd : double) : M cJSON :=
  a <- malloc ;; ret (mk_cJSON a ty vs vd None []).

(** Modelled from the spec: "create leaf/container nodes" of the external
    tree library (section 2); [cJSON_CreateNull], [cJSON_CreateBool],
    [cJSON_CreateNumber], [cJSON_CreateString], [cJSON_CreateArray] and
    [cJSON_CreateObject] are missing.  Each allocates one node, unnamed
    and childless.  Allocation failure is fatal (section 4.1) and is not
    modelled. *)
Definition cJSON_CreateNull : M cJSON := new_item cJSON_NULL None double_zero.

Definition cJSON_CreateBool (b : bool) : M cJSON :=
  new_item (if b then cJSON_True else cJSON_False) None double_zero.

Definition cJSON_CreateNumber (num : double) : M cJSON :=
  new_item cJSON_Number None num.

Definition cJSON_CreateString (s : string) : M cJSON :=
  new_item cJSON_String (Some s) double_zero.

Definition cJSON_CreateArray : M cJSON := new_item cJSON_Array None double_zero.

Definition cJSON_CreateObject : M cJSON := new_item cJSON_Object None double_zero.

(** Modelled from the spec: "deep-duplicate a subtree" of the external
    tree library; [cJSON_Duplicate] (called with [recurse = 1]) is missing.
    Every node of the copy is newly allocated; kinds, values, names and
    the order of the children are kept. *)
Fixpoint duplicate (item : cJSON) : M cJSON :=
  match item with
  | mk_cJSON _ ty vs vd nm ch =>
      a <- malloc ;;
      ch' <- (fix all (l : list cJSON) : M (list cJSON) :=
                match l with
                | [] => ret []
                | c :: l' => c' <- duplicate c ;; l'' <- all l' ;; ret (c' :: l'')
                end) ch ;;
      ret (mk_cJSON a ty vs vd nm ch')
  end.

(** The duplication of a child sequence, as [duplicate] does it. *)
Fixpoint duplicate_list (l : list cJSON) : M (list cJSON) :=
  match l with
  | [] => ret []
  | c :: l' => c' <- duplicate c ;; l'' <- duplicate_list l' ;; ret (c' :: l'')
  end.

(** Modelled from the spec: [cJSON_Duplicate] on a nullable pointer; the
    duplicate of a null pointer is a null pointer. *)
Definition cJSON_Duplicate (item : option cJSON) : M (option cJSON) :=
  match item with
  | None => ret None
  | Some t => t' <- duplicate t ;; ret (Some t')
  end.

(** Modelled from the spec: "free a subtree" of the external tree library;
    [cJSON_Delete] is missing.  It releases every node of the subtree and
    accepts a null pointer. *)
Definition cJSON_Delete (item : option cJSON) : M unit := free (nodes_opt item).

(** Modelled from the spec: the kind tests of the external tree library
    ([cJSON_IsObject] and the like are missing); each is false on a null
    pointer (section 4.2, "false (not a fatal error) when the aliased
    reference is null"). *)
Definition has_type (ty : cJSON_type) (item : option cJSON) : bool :=
  match item with
  | None => false
  | Some t => cJSON_type_eqb (type t) ty
  end.

Definition cJSON_IsInvalid : option cJSON -> bool := has_type cJSON_Invalid.
Definition cJSON_IsTrue : option cJSON -> bool := has_type cJSON_True.
Definition cJSON_IsFalse : option cJSON -> bool := has_type cJSON_False.
Definition cJSON_IsBool (item : option cJSON) : bool :=
  cJSON_IsTrue item || cJSON_IsFalse item.
Definition cJSON_IsNull : option cJSON -> bool := has_type cJSON_NULL.
Definition cJSON_IsNumber : option cJSON -> bool := has_type cJSON_Number.
Definition cJSON_IsString : option cJSON -> bool := has_type cJSON_String.
Definition cJSON_IsArray : option cJSON -> bool := has_type cJSON_Array.
Definition cJSON_IsObject : option cJSON -> bool := has_type cJSON_Object.

(** Modelled from the spec: [cJSON_GetStringValue] is missing; it yields
    the text of a string node and a null pointer for anything else, which
    is what the null test of its callers ([str != nullptr ? str : ""])
    expects. *)
Definition cJSON_GetStringValue (item : option cJSON) : option string :=
  match item with
  | Some t => if cJSON_IsString item then valuestring t else None
  | None => None
  end.

(** The node carries the name [key], compared exactly ([strcmp]). *)
Definition named (key : string) (c : cJSON) : bool :=
  match string_ c with
  | Some n => String.eqb key n
  | None => false
  end.

(** Modelled from the spec: the look-up of a named child, by exact
    (case-sensitive) comparison of the names, in child order;
    [cJSON_GetObjectItemCaseSensitive] is missing. *)
Definition cJSON_GetObjectItemCaseSensitive (object : option cJSON) (key : string)
  : option cJSON :=
  match object with
  | None => None
  | Some o => List.find (named key) (child o)
  end.

(** Assignments to the fields [child] and [string] of a node. *)
Definition set_child (ch : list cJSON) (item : cJSON) : cJSON :=
  mk_cJSON (self item) (type item) (valuestring item) (valuedouble item)
           (string_ item) ch.

Definition set_string (nm : option string) (item : cJSON) : cJSON :=
  mk_cJSON (self item) (type item) (valuestring item) (valuedouble item)
           nm (child item).

(** Modelled from the spec: "insert ... a child" at the end of the child
    sequence (children are enumerated "in insertion order");
    [cJSON_AddItemToArray] is missing.  A null item is not added.  The
    array is mutated in place: the result is the array node afterwards. *)
Definition cJSON_AddItemToArray (array : cJSON) (item : option cJSON) : cJSON :=
  match item with
  | None => array
  | Some c => set_child (child array ++ [c]) array
  end.

(** Modelled from the spec: "insert ... a named child";
    [cJSON_AddItemToObject] is missing.  The item takes the key as its
    name and becomes the last child. *)
Definition cJSON_AddItemToObject (object : cJSON) (key : string) (item : cJSON) : cJSON :=
  cJSON_AddItemToArray object (Some (set_string (Some key) item)).

(** The child sequence with the first child named [key] replaced. *)
Fixpoint replace_named (key : string) (replacement : cJSON) (l : list cJSON) : list cJSON :=
  match l with
  | [] => []
  | c :: l' =>
      if named key c then replacement :: l' else c :: replace_named key replacement l'
  end.

(** Modelled from the spec: "replace a named child";
    [cJSON_ReplaceItemInObjectCaseSensitive] is missing.  The replacement
    takes the key as its name and the place of the first child of that
    name, and the replaced child is released with its subtree. *)
Definition cJSON_ReplaceItemInObjectCaseSensitive
    (object : cJSON) (key : string) (replacement : cJSON) : M cJSON :=
  match cJSON_GetObjectItemCaseSensitive (Some object) key with
  | None => ret object
  | Some existing =>
      cJSON_Delete (Some existing) ;;
      ret (set_child (replace_named key (set_string (Some key) replacement)
                                    (child object)) object)
  end.

(** Modelled from the spec: the comparison of two names, exact when
    [case_sensitive] is set. *)
Definition name_eqb (case_sensitive : bool) (a b : option string) : bool :=
  match a, b with
  | Some x, Some y =>
      if case_sensitive then String.eqb x y
      else String.eqb (lowercase x) (lowercase y)
  | None, None => true
  | _, _ => false
  end.

Definition option_string_eqb (a b : option string) : bool := name_eqb true a b.

(** Modelled from the spec: "structural compare" of the external tree
    library (section 4.1: "structural, case-sensitive compare of the two
    trees"); [cJSON_Compare] is missing.  Two nodes are equal when they
    have the same kind and, by kind, the same number, the same text, or
    children that are pairwise equal in order (for an object also under
    the same names). *)
Fixpoint compare (case_sensitive : bool) (a b : cJSON) : bool :=
  match a, b with
  | mk_cJSON _ ta vsa vda _ cha, mk_cJSON _ tb vsb vdb _ chb =>
      cJSON_type_eqb ta tb &&
      match ta with
      | cJSON_Number => double_eqb vda vdb
      | cJSON_String => option_string_eqb vsa vsb
      | cJSON_Array =>
          (fix all (la lb : list cJSON) : bool :=
             match la, lb with
             | [], [] => true
             | x :: la', y :: lb' => compare case_sensitive x y && all la' lb'
             | _, _ => false
             end) cha chb
      | cJSON_Object =>
          (fix all (la lb : list cJSON) : bool :=
             match la, lb with
             | [], [] => true
             | x :: la', y :: lb' =>
                 name_eqb case_sensitive (string_ x) (string_ y) &&
                 compare case_sensitive x y && all la' lb'
             | _, _ => false
             end) cha chb
      | _ => true
      end
  end.

(** Modelled from the spec: "null vs null is considered equal"
    (section 4.1, Equality); a null pointer differs from every node. *)
Definition cJSON_Compare (a b : option cJSON) (case_sensitive : bool) : bool :=
  match a, b with
  | None, None => true
  | Some x, Some y => compare case_sensitive x y
  | _, _ => false
  end.

(** Modelled from the spec: the number of children of a node (section
    4.2: the sequence returned for an array is "sized exactly to the
    element count"); [cJSON_GetArraySize] is missing.  A null pointer has
    none. *)
Definition cJSON_GetArraySize (array : option cJSON) : nat :=
  match array with
  | None => 0%nat
  | Some a => length (child a)
  end.

(** Modelled from the spec: the opaque allocator handle (section 6); the
    type [Allocator] and the default of the header are missing. *)
Definition Allocator : Type := nat.

Definition DefaultAllocator : Allocator := 0%nat.

(** ** The fatal check *)

(** Modelled from the spec: [AWS_ASSERT] is a "fatal assertion
    (process-terminating check)" (section 7); the macro is missing. *)
Inductive checked (A : Type) : Type :=
  | Returns (a : A)
  | AssertionFailure.
Arguments Returns {A} a.
Arguments AssertionFailure {A}.

Definition AWS_ASSERT {A : Type} (condition : bool) (k : checked A) : checked A :=
  if condition then k else AssertionFailure.

Definition is_nonnull {A : Type} (p : option A) : bool :=
  match p with
  | Some _ => true
  | None => false
  end.

(** ** JsonObject: the owning Document *)

(** [AddOrReplace(root, key, value)], a static helper of the file.  The
    callers pass a root they have just made non-null. *)
Definition AddOrReplace (root : cJSON) (key : string) (value : cJSON) : M cJSON :=
  match cJSON_GetObjectItemCaseSensitive (Some root) key with
  | Some existing => cJSON_ReplaceItemInObjectCaseSensitive root key value
  | None => ret (cJSON_AddItemToObject root key value)
  end.

Module JsonObject.

Record t : Type := mk {
  m_allocator : Allocator;
  m_value : option cJSON;
  m_wasParseSuccessful : bool;
  m_errorMessage : String
}.

Definition set_m_value (v : option cJSON) (this : t) : t :=
  mk (m_allocator this) v (m_wasParseSuccessful this) (m_errorMessage this).

(** A [const JsonObject &] or [JsonObject &&] argument of an assignment:
    the receiver itself, or another object. *)
Inductive arg : Type :=
  | this_object
  | other_object (o : t).

(** [JsonObject(Allocator *a)] *)
Definition empty (a : Allocator) : t := mk a None true EmptyString.

(** [JsonObject(cJSON *value, Allocator *a)] *)
Definition of_cJSON (value : option cJSON) (a : Allocator) : M t :=
  v <- cJSON_Duplicate value ;; ret (mk a v true EmptyString).

(** [JsonObject(const String &value, Allocator *a)].  The parser is the
    library's: it is a parameter, yielding the tree (or null) and the
    text left at [return_parse_end]. *)
Definition of_text (cJSON_ParseWithOpts : string -> M (option cJSON * string))
    (value : String) (a : Allocator) : M t :=
  r <- cJSON_ParseWithOpts (c_str value) ;;
  let (v, return_parse_end) := r : option cJSON * string in
  if negb (is_nonnull v) || cJSON_IsInvalid v
  then ret (mk a v false (String.append "Failed to parse JSON at: " return_parse_end))
  else ret (mk a v true EmptyString).

(** [JsonObject(const JsonObject &value)] *)
Definition copy (value : t) : M t :=
  v <- cJSON_Duplicate (m_value value) ;;
  ret (mk (m_allocator value) v (m_wasParseSuccessful value) (m_errorMessage value)).

Definition Destroy (this : t) : M unit := cJSON_Delete (m_value this).

(** [operator=(const JsonObject &other)] *)
Definition assign (this : t) (other : arg) : M t :=
  match other with
  | this_object => ret this
  | other_object o =>
      Destroy this ;;
      v <- cJSON_Duplicate (m_value o) ;;
      ret (mk (m_allocator this) v (m_wasParseSuccessful o) (m_errorMessage o))
  end.

(** [operator=(JsonObject &&other)]: the receiver and, when it is
    another object, the source afterwards. *)
Definition assign_move (this : t) (other : arg) : t * option t :=
  match other with
  | this_object => (this, None)
  | other_object o =>
      (mk (m_allocator this) (m_value o) (m_wasParseSuccessful o) (m_errorMessage o),
       Some (mk (m_allocator o) (m_value this) (m_wasParseSuccessful o)
                (m_errorMessage this)))
  end.

(** [if (m_value == nullptr) m_value = cJSON_CreateObject();], the
    opening of every [With...] mutator. *)
Definition object_root (this : t) : M cJSON :=
  match m_value this with
  | None => cJSON_CreateObject
  | Some root => ret root
  end.

Definition WithString (this : t) (key : string) (value : String) : M t :=
  root <- object_root this ;;
  val <- cJSON_CreateString (c_str value) ;;
  root' <- AddOrReplace root key val ;;
  ret (set_m_value (Some root') this).

Definition AsString (this : t) (value : String) : M t :=
  Destroy this ;;
  v <- cJSON_CreateString (c_str value) ;;
  ret (set_m_value (Some v) this).

Definition WithBool (this : t) (key : string) (value : bool) : M t :=
  root <- object_root this ;;
  val <- cJSON_CreateBool value ;;
  root' <- AddOrReplace root key val ;;
  ret (set_m_value (Some root') this).

Definition AsBool (this : t) (value : bool) : M t :=
  Destroy this ;;
  v <- cJSON_CreateBool value ;;
  ret (set_m_value (Some v) this).

Definition WithDouble (this : t) (key : string) (value : double) : M t :=
  root <- object_root this ;;
  val <- cJSON_CreateNumber value ;;
  root' <- AddOrReplace root key val ;;
  ret (set_m_value (Some root') this).

Definition AsDouble (this : t) (value : double) : M t :=
  Destroy this ;;
  v <- cJSON_CreateNumber value ;;
  ret (set_m_value (Some v) this).

Definition WithInteger (this : t) (key : string) (value : Z) : M t :=
  WithDouble this key (static_cast_double value).

Definition AsInteger (this : t) (value : Z) : M t :=
  Destroy this ;;
  v <- cJSON_CreateNumber (static_cast_double value) ;;
  ret (set_m_value (Some v) this).

Definition WithInt64 (this : t) (key : string) (value : Z) : M t :=
  WithDouble this key (static_cast_double value).

Definition AsInt64 (this : t) (value : Z) : M t :=
  AsDouble this (static_cast_double value).

(** The loop of [WithArray(key, const Vector<String> &)]. *)
Fixpoint add_strings (arrayValue : cJSON) (array : list String) : M cJSON :=
  match array with
  | [] => ret arrayValue
  | i :: rest =>
      s <- cJSON_CreateString (c_str i) ;;
      add_strings (cJSON_AddItemToArray arrayValue (Some s)) rest
  end.

(** The loop of the copy forms of [WithArray] and [AsArray]:
    [cJSON_AddItemToArray(arrayValue, cJSON_Duplicate(i.m_value, 1))]. *)
Fixpoint add_duplicates (arrayValue : cJSON) (array : list t) : M cJSON :=
  match array with
  | [] => ret arrayValue
  | i :: rest =>
      c <- cJSON_Duplicate (m_value i) ;;
      add_duplicates (cJSON_AddItemToArray arrayValue c) rest
  end.

(** The loop of the move forms of [WithArray] and [AsArray]:
    [cJSON_AddItemToArray(arrayValue, i.m_value); i.m_value = nullptr;].
    It yields the array and the vector afterwards. *)
Fixpoint adopt_all (arrayValue : cJSON) (array : list t) : cJSON * list t :=
  match array with
  | [] => (arrayValue, [])
  | i :: rest =>
      let arrayValue' := cJSON_AddItemToArray arrayValue (m_value i) in
      let i' := set_m_value None i in
      let (arrayValue'', rest') := adopt_all arrayValue' rest in
      (arrayValue'', i' :: rest')
  end.

(** [WithArray(const char *key, const Vector<String> &array)] *)
Definition WithArray_strings (this : t) (key : string) (array : list String) : M t :=
  root <- object_root this ;;
  arrayValue <- cJSON_CreateArray ;;
  arrayValue' <- add_strings arrayValue array ;;
  root' <- AddOrReplace root key arrayValue' ;;
  ret (set_m_value (Some root') this).

(** [WithArray(const String &key, const Vector<JsonObject> &array)] *)
Definition WithArray (this : t) (key : String) (array : list t) : M t :=
  root <- object_root this ;;
  arrayValue <- cJSON_CreateArray ;;
  arrayValue' <- add_duplicates arrayValue array ;;
  root' <- AddOrReplace root (c_str key) arrayValue' ;;
  ret (set_m_value (Some root') this).

(** [WithArray(const String &key, Vector<JsonObject> &&array)]: the
    receiver and the vector afterwards. *)
Definition WithArray_move (this : t) (key : String) (array : list t) : M (t * list t) :=
  root <- object_root this ;;
  arrayValue <- cJSON_CreateArray ;;
  let (arrayValue', array') := adopt_all arrayValue array in
  root' <- AddOrReplace root (c_str key) arrayValue' ;;
  ret (set_m_value (Some root') this, array').

(** [AsArray(const Vector<JsonObject> &array)] *)
Definition AsArray (this : t) (array : list t) : M t :=
  arrayValue <- cJSON_CreateArray ;;
  arrayValue' <- add_duplicates arrayValue array ;;
  Destroy this ;;
  ret (set_m_value (Some arrayValue') this).

(** [AsArray(Vector<JsonObject> &&array)] *)
Definition AsArray_move (this : t) (array : list t) : M (t * list t) :=
  arrayValue <- cJSON_CreateArray ;;
  let (arrayValue', array') := adopt_all arrayValue array in
  Destroy this ;;
  ret (set_m_value (Some arrayValue') this, array').

Definition AsNull (this : t) : M t :=
  v <- cJSON_CreateNull ;;
  ret (set_m_value (Some v) this).

(** [WithObject(const char *key, const JsonObject &value)] *)
Definition WithObject (this : t) (key : string) (value : t) : M t :=
  root <- object_root this ;;
  copy <- match m_value value with
          | None => cJSON_CreateObject
          | Some v => duplicate v
          end ;;
  root' <- AddOrReplace root key copy ;;
  ret (set_m_value (Some root') this).

(** [WithObject(const char *key, JsonObject &&value)]: the receiver and
    the source afterwards. *)
Definition WithObject_move (this : t) (key : string) (value : t) : M (t * t) :=
  root <- object_root this ;;
  item <- match m_value value with
          | None => cJSON_CreateObject
          | Some v => ret v
          end ;;
  root' <- AddOrReplace root key item ;;
  ret (set_m_value (Some root') this, set_m_value None value).

(** [AsObject(const JsonObject &value)] *)
Definition AsObject (this : t) (value : arg) : M t := assign this value.

(** [AsObject(JsonObject &&value)] *)
Definition AsObject_move (this : t) (value : arg) : t * option t :=
  assign_move this value.

(** [operator==] *)
Definition equal (this other : t) : bool :=
  cJSON_Compare (m_value this) (m_value other) true.

(** [operator!=] *)
Definition not_equal (this other : t) : bool := negb (equal this other).

(** [~JsonObject()] *)
Definition destructor (this : t) : M unit := Destroy this.

End JsonObject.

(** ** JsonView: the borrowing cursor *)

Module JsonView.

Record t : Type := mk {
  m_allocator : Allocator;
  m_value : option cJSON
}.

(** [JsonView(Allocator *a)] *)
Definition unbound (a : Allocator) : t := mk a None.

(** [JsonView(const JsonObject &val)] *)
Definition of_JsonObject (val : JsonObject.t) : t :=
  mk (JsonObject.m_allocator val) (JsonObject.m_value val).

(** [JsonView(cJSON *val, Allocator *a)] *)
Definition of_cJSON (val : option cJSON) (a : Allocator) : t := mk a val.

Definition AsString (this : t) : checked String :=
  let str := cJSON_GetStringValue (m_value this) in
  Returns (match str with
           | Some s => s
           | None => EmptyString
           end).

Definition GetString (this : t) (key : string) : checked String :=
  AWS_ASSERT (is_nonnull (m_value this))
    (let item := cJSON_GetObjectItemCaseSensitive (m_value this) key in
     let str := cJSON_GetStringValue item in
     Returns (match str with
              | Some s => s
              | None => EmptyString
              end)).

Definition AsBool (this : t) : checked bool :=
  AWS_ASSERT (cJSON_IsBool (m_value this))
    (Returns (cJSON_IsTrue (m_value this))).

Definition AsDouble (this : t) : checked double :=
  AWS_ASSERT (cJSON_IsNumber (m_value this))
    (Returns (match m_value this with
              | Some n => valuedouble n
              | None => double_zero
              end)).

Definition GetJsonObject (this : t) (key : string) : checked t :=
  AWS_ASSERT (is_nonnull (m_value this))
    (let item := cJSON_GetObjectItemCaseSensitive (m_value this) key in
     Returns (of_cJSON item DefaultAllocator)).

Definition GetJsonObjectCopy (this : t) (key : string) : checked (M JsonObject.t) :=
  AWS_ASSERT (is_nonnull (m_value this))
    (Returns (JsonObject.of_cJSON
                (cJSON_GetObjectItemCaseSensitive (m_value this) key)
                (m_allocator this))).

Definition AsObject (this : t) : checked t :=
  AWS_ASSERT (cJSON_IsObject (m_value this))
    (Returns (of_cJSON (m_value this) DefaultAllocator)).

Definition ValueExists (this : t) (key : string) : bool :=
  if negb (cJSON_IsObject (m_value this)) then false
  else
    let item := cJSON_GetObjectItemCaseSensitive (m_value this) key in
    negb (negb (is_nonnull item) || cJSON_IsNull item).

Definition KeyExists (this : t) (key : string) : bool :=
  if negb (cJSON_IsObject (m_value this)) then false
  else is_nonnull (cJSON_GetObjectItemCaseSensitive (m_value this) key).

Definition IsObject (this : t) : bool := cJSON_IsObject (m_value this).
Definition IsBool (this : t) : bool := cJSON_IsBool (m_value this).
Definition IsString (this : t) : bool := cJSON_IsString (m_value this).
Definition IsListType (this : t) : bool := cJSON_IsArray (m_value this).
Definition IsNull (this : t) : bool := cJSON_IsNull (m_value this).

Section Printing.

(** The printers are the library's: they are parameters. *)
Variable cJSON_PrintUnformatted : cJSON -> string.
Variable cJSON_Print : cJSON -> string.

Definition WriteCompact (this : t) (treatAsObject : bool) : String :=
  match m_value this with
  | None => if treatAsObject then "{}"%string else EmptyString
  | Some v => cJSON_PrintUnformatted v
  end.

Definition WriteReadable (this : t) (treatAsObject : bool) : String :=
  match m_value this with
  | None =>
      if treatAsObject
      then String.String "{" (String.String newline
             (String.String "}" (String.String newline EmptyString)))
      else EmptyString
  | Some v => cJSON_Print v
  end.

End Printing.

Definition Materialize (this : t) : M JsonObject.t :=
  JsonObject.of_cJSON (m_value this) (m_allocator this).

(** [operator=(const JsonObject &v)] *)
Definition assign_JsonObject (this : t) (v : JsonObject.t) : t :=
  mk (m_allocator this) (JsonObject.m_value v).

(** [operator=(cJSON *val)] *)
Definition assign_cJSON (this : t) (val : option cJSON) : t :=
  mk (m_allocator this) val.

Definition GetDouble (this : t) (key : string) : checked double :=
  AWS_ASSERT (is_nonnull (m_value this))
    (let item := cJSON_GetObjectItemCaseSensitive (m_value this) key in
     AWS_ASSERT (is_nonnull item)
       (Returns (match item with
                 | Some i => valuedouble i
                 | None => double_zero
                 end))).

(** The loop of [GetArray] and [AsArray],
    [for (i = 0; element != nullptr && i < returnArray.size();
          ++i, element = element->next) returnArray[i] = element;],
    on the chain of elements that starts at [element]. *)
Fixpoint fill (i : nat) (element : list cJSON) (returnArray : list t) : list t :=
  match element with
  | [] => returnArray
  | e :: next =>
      if (i <? length returnArray)%nat
      then fill (S i) next (alter (fun v => assign_cJSON v (Some e)) i returnArray)
      else returnArray
  end.

(** [Vector<JsonView> returnArray(n, ...)]: [n] default-constructed
    Views. *)
Definition new_vector (n : nat) : list t := replicate n (unbound DefaultAllocator).

Definition GetArray (this : t) (key : string) : checked (list t) :=
  AWS_ASSERT (is_nonnull (m_value this))
    (let array := cJSON_GetObjectItemCaseSensitive (m_value this) key in
     AWS_ASSERT (cJSON_IsArray array)
       (let returnArray := new_vector (cJSON_GetArraySize array) in
        Returns (fill 0 (match array with
                         | Some a => child a
                         | None => []
                         end) returnArray))).

Definition AsArray (this : t) : checked (list t) :=
  AWS_ASSERT (cJSON_IsArray (m_value this))
    (let returnArray := new_vector (cJSON_GetArraySize (m_value this)) in
     Returns (fill 0 (match m_value this with
                      | Some a => child a
                      | None => []
                      end) returnArray)).

(** [std::map::emplace]: the pair is inserted unless the key is there. *)
Definition emplace (k : string) (v : t) (valueMap : gmap string t) : gmap string t :=
  match valueMap !! k with
  | Some _ => valueMap
  | None => <[ k := v ]> valueMap
  end.

(** The loop of [GetAllObjects] on the chain of children that starts at
    [iter].  [String(iter->string, allocator)] has no defined behaviour
    on a child without a name: there is no result then. *)
Fixpoint emplace_all (iter : list cJSON) (valueMap : gmap string t)
  : option (gmap string t) :=
  match iter with
  | [] => Some valueMap
  | c :: next =>
      match string_ c with
      | None => None
      | Some name =>
          emplace_all next (emplace name (of_cJSON (Some c) DefaultAllocator) valueMap)
      end
  end.

Definition GetAllObjects (this : t) : option (gmap string t) :=
  match m_value this with
  | None => Some ∅
  | Some v => emplace_all (child v) ∅
  end.

End JsonView.

(** [JsonObject::View()] *)
Definition View (this : JsonObject.t) : JsonView.t := JsonView.of_JsonObject this.

(** ** Views of the model used in the statements *)

(** The tree a node stands for, without addresses: the TreeNode of the
    data model.  What a kind does not use (the children of a leaf, the
    number of a string, the names of array elements) is left out. *)
Inductive TreeNode : Type :=
  | Invalid
  | Null
  | Boolean (b : bool)
  | Number (d : double)
  | Text (s : option string)
  | Array (elements : list TreeNode)
  | Object (members : list (option string * TreeNode)).

Fixpoint tree_of (item : cJSON) : TreeNode :=
  match item with
  | mk_cJSON _ ty vs vd _ ch =>
      match ty with
      | cJSON_Invalid => Invalid
      | cJSON_NULL => Null
      | cJSON_False => Boolean false
      | cJSON_True => Boolean true
      | cJSON_Number => Number vd
      | cJSON_String => Text vs
      | cJSON_Array =>
          Array ((fix all (l : list cJSON) : list TreeNode :=
                    match l with
                    | [] => []
                    | c :: l' => tree_of c :: all l'
                    end) ch)
      | cJSON_Object =>
          Object ((fix all (l : list cJSON) : list (option string * TreeNode) :=
                     match l with
                     | [] => []
                     | c :: l' => (string_ c, tree_of c) :: all l'
                     end) ch)
      end
  end.

Definition tree_of_opt (item : option cJSON) : option TreeNode :=
  match item with
  | None => None
  | Some t => Some (tree_of t)
  end.

(** The children of the node a view is bound to. *)
Definition children (v : JsonView.t) : list cJSON :=
  match JsonView.m_value v with
  | Some n => child n
  | None => []
  end.

(** [c] is the child named [key] among [l]: the first one in child
    order, should several carry the name. *)
Definition child_named (key : string) (l : list cJSON) (c : cJSON) : Prop :=
  exists pre post,
    l = pre ++ c :: post /\ string_ c = Some key /\
    Forall (fun x => string_ x <> Some key) pre.

(** The position of the first child named [key]. *)
Fixpoint index_named (key : string) (l : list cJSON) : option nat :=
  match l with
  | [] => None
  | c :: l' =>
      if named key c then Some 0%nat
      else match index_named key l' with
           | Some i => Some (S i)
           | None => None
           end
  end.

Definition count_named (key : string) (l : list cJSON) : nat :=
  length (List.filter (named key) l).

(** The roots with which the [With...] mutators work as the specification
    describes them: none, or an object. *)
Definition object_or_null (item : option cJSON) : bool :=
  negb (is_nonnull item) || cJSON_IsObject item.

Definition string_leaf (a : N) (nm : option string) (s : string) : cJSON :=
  mk_cJSON a cJSON_String (Some s) double_zero nm [].


(** The child sequence once [item] has been put under [key]: in the place
    of the first child of that name, or else at the end. *)
Fixpoint upsert (key : string) (item : cJSON) (l : list cJSON) : list cJSON :=
  match l with
  | [] => [item]
  | c :: l' => if named key c then item :: l' else c :: upsert key item l'
  end.

(** The place a child named [key] takes among [l]: that of the first
    child of the name, or else the end. *)
Definition place (key : string) (l : list cJSON) : nat :=
  match index_named key l with
  | Some i => i
  | None => length l
  end.

(** The idempotent replace of section 8: after [WithString(key, v1)] and
    then [WithString(key, v2)], the root is an object with exactly one
    child named [key], a string of text [stored], at the position the
    first call gave the key. *)
Definition replaced_in_place (stored : string)
    (this : JsonObject.t) (key : string) (v1 v2 : String) (h : Heap) : Prop :=
  let '(d1, h1) := JsonObject.WithString this key v1 h in
  let '(d2, h2) := JsonObject.WithString d1 key v2 h1 in
  exists root1 root2 i c,
    JsonObject.m_value d1 = Some root1 /\
    JsonObject.m_value d2 = Some root2 /\
    type root2 = cJSON_Object /\
    count_named key (child root2) = 1%nat /\
    index_named key (child root1) = Some i /\
    index_named key (child root2) = Some i /\
    child root2 !! i = Some c /\
    string_ c = Some key /\ type c = cJSON_String /\ valuestring c = Some stored.

(** Every address of [s] has been given back. *)
Definition released (s : gset N) (h : Heap) : Prop := forall a, a ∈ s -> a ∉ live h.

(** ** Documents used in the examples *)

(** [JsonObject().WithObject("a", JsonObject().AsNull())]: the document
    [{"a": null}]. *)
Definition null_member : JsonObject.t :=
  let '(n, h) := JsonObject.AsNull (JsonObject.empty DefaultAllocator) heap0 in
  fst (JsonObject.WithObject (JsonObject.empty DefaultAllocator) "a"%string n h).

(** [JsonObject().WithObject("o", JsonObject())]: the document
    [{"o": {}}]. *)
Definition empty_member : JsonObject.t :=
  fst (JsonObject.WithObject (JsonObject.empty DefaultAllocator) "o"%string
         (JsonObject.empty DefaultAllocator) heap0).

(** What the text constructor leaves behind on the malformed text [{]. *)
Definition failed_parse : JsonObject.t :=
  JsonObject.mk DefaultAllocator None false "Failed to parse JSON at: {"%string.

(** ** Ownership *)

(** Every live address has been handed out. *)
Definition heap_ok (h : Heap) : Prop := forall a, a ∈ live h -> (a < next h)%N.

(** The nodes of [l] occupy pairwise disjoint sets of addresses. *)
Fixpoint apart (l : list cJSON) : Prop :=
  match l with
  | [] => True
  | c :: l' => (nodes c ## nodes_list l') /\ apart l'
  end.

(** The root is no node of its children, and its children lie apart. *)
Definition separate (item : option cJSON) : Prop :=
  match item with
  | None => True
  | Some t => (self t ∉ nodes_list (child t)) /\ apart (child t)
  end.

(** The live nodes of [h] are those of the tree [item] and, apart from
    them, the frame [F] (the nodes that belong to other owners). *)
Definition owns (h : Heap) (F : gset N) (item : option cJSON) : Prop :=
  heap_ok h /\ live h = nodes_opt item ∪ F /\ (nodes_opt item ## F) /\ separate item.


(** No two children carry the same name. *)
Definition unique_names (l : list cJSON) : Prop :=
  forall key, (count_named key l <= 1)%nat.


(** ** The keyed mutators, taken together *)

(** The Documents the mutators keyed by a [const char *] make of [this]. *)
Definition keyed (this : JsonObject.t) (key : string) (h : Heap)
    (v : String) (b : bool) (x : double) (z : Z) (o : JsonObject.t)
    (strs : list String) : list JsonObject.t :=
  [ fst (JsonObject.WithString this key v h);
    fst (JsonObject.WithBool this key b h);
    fst (JsonObject.WithDouble this key x h);
    fst (JsonObject.WithInteger this key z h);
    fst (JsonObject.WithInt64 this key z h);
    fst (JsonObject.WithObject this key o h);
    fst (fst (JsonObject.WithObject_move this key o h));
    fst (JsonObject.WithArray_strings this key strs h) ].

(** The Documents the mutators keyed by a [String] make of [this]. *)
Definition keyed_array (this : JsonObject.t) (key : String) (h : Heap)
    (docs : list JsonObject.t) : list JsonObject.t :=
  [ fst (JsonObject.WithArray this key docs h);
    fst (fst (JsonObject.WithArray_move this key docs h)) ].

(** [d] is [this] with some item put under [key]: in the place of the
    first child of that name, or else at the end; the kind of the root
    is kept, and a root that was missing is an object. *)
Definition put_under (key : string) (this d : JsonObject.t) : Prop :=
  exists item,
    children (View d) =
      upsert key (set_string (Some key) item) (children (View this)) /\
    is_nonnull (JsonObject.m_value d) = true /\
    cJSON_IsObject (JsonObject.m_value d) = object_or_null (JsonObject.m_value this).

(** * Properties *)

(** ** Trees, addresses and duplication *)

Lemma cJSON_tree_ind (P : cJSON -> Prop) :
  (forall a ty vs vd nm ch, Forall P ch -> P (mk_cJSON a ty vs vd nm ch)) ->
  forall t, P t.
Proof.
  intros step. fix IH 1. intros [a ty vs vd nm ch]. apply step.
  induction ch as [|c ch IHch]; constructor; [apply IH | apply IHch].
Qed.

Lemma nodes_eq a ty vs vd nm ch :
  nodes (mk_cJSON a ty vs vd nm ch) = {[ a ]} ∪ nodes_list ch.
Proof. reflexivity. Qed.

Lemma nodes_unfold t : nodes t = {[ self t ]} ∪ nodes_list (child t).
Proof. destruct t. apply nodes_eq. Qed.

Lemma nodes_list_app l1 l2 : nodes_list (l1 ++ l2) = nodes_list l1 ∪ nodes_list l2.
Proof.
  induction l1 as [|c l1 IH]; simpl; [set_solver|]. rewrite IH. set_solver.
Qed.

Lemma nodes_set_string nm t : nodes (set_string nm t) = nodes t.
Proof. destruct t. unfold set_string. simpl. reflexivity. Qed.

Lemma duplicate_eq a ty vs vd nm ch :
  duplicate (mk_cJSON a ty vs vd nm ch) =
  (a' <- malloc ;; ch' <- duplicate_list ch ;; ret (mk_cJSON a' ty vs vd nm ch')).
Proof. reflexivity. Qed.

Lemma double_eqb_eq a b : double_eqb a b = true <-> a = b.
Proof.
  destruct a as [s|s| |s m e], b as [s'|s'| |s' m' e']; simpl;
    try (split; [discriminate | congruence]); try tauto.
  - rewrite Bool.eqb_true_iff. split; congruence.
  - rewrite Bool.eqb_true_iff. split; congruence.
  - rewrite !andb_true_iff, Bool.eqb_true_iff, Pos.eqb_eq, Z.eqb_eq.
    split; [intros [[-> ->] ->]; reflexivity | intros [= -> -> ->]; auto].
Qed.

Lemma name_eqb_eq a b : name_eqb true a b = true <-> a = b.
Proof.
  destruct a as [x|], b as [y|]; simpl;
    try (split; [discriminate | congruence]); try tauto.
  rewrite String.eqb_eq. split; congruence.
Qed.

Lemma cJSON_type_eqb_eq a b : cJSON_type_eqb a b = true <-> a = b.
Proof. destruct a, b; simpl; split; congruence. Qed.

Lemma named_iff key c : named key c = true <-> string_ c = Some key.
Proof.
  unfold named. destruct (string_ c) as [n|]; [|split; congruence].
  rewrite String.eqb_eq. split; congruence.
Qed.

Lemma named_false_iff key c : named key c = false <-> string_ c <> Some key.
Proof. rewrite <- named_iff. destruct (named key c); split; congruence. Qed.

Lemma tree_of_eq a ty vs vd nm ch :
  tree_of (mk_cJSON a ty vs vd nm ch) =
  match ty with
  | cJSON_Invalid => Invalid
  | cJSON_NULL => Null
  | cJSON_False => Boolean false
  | cJSON_True => Boolean true
  | cJSON_Number => Number vd
  | cJSON_String => Text vs
  | cJSON_Array => Array (map tree_of ch)
  | cJSON_Object => Object (map (fun c => (string_ c, tree_of c)) ch)
  end.
Proof. reflexivity. Qed.

Lemma map_named_tree l l' :
  map tree_of l' = map tree_of l -> map string_ l' = map string_ l ->
  map (fun c => (string_ c, tree_of c)) l' = map (fun c => (string_ c, tree_of c)) l.
Proof.
  revert l. induction l' as [|x l' IH]; intros [|y l]; simpl; intros Ht Hs;
    try discriminate; [reflexivity|].
  injection Ht as Hx Ht. injection Hs as Hy Hs. rewrite Hx, Hy. f_equal. now apply IH.
Qed.

(** A duplicate occupies addresses that did not exist before, leaves
    everything else allocated, and has the shape of its source. *)
Lemma duplicate_spec t :
  forall h t' h', duplicate t h = (t', h') ->
    (next h <= next h')%N /\
    (forall a, a ∈ nodes t' -> (next h <= a < next h')%N) /\
    live h' = nodes t' ∪ live h /\
    tree_of t' = tree_of t /\ string_ t' = string_ t /\ type t' = type t.
Proof.
  induction t as [a ty vs vd nm ch IH] using cJSON_tree_ind.
  intros h t' h'. rewrite duplicate_eq. unfold bind, malloc, ret.
  set (h1 := mkHeap (N.succ (next h)) ({[ next h ]} ∪ live h)).
  assert (Hl : forall h1 l' h2, duplicate_list ch h1 = (l', h2) ->
            (next h1 <= next h2)%N /\
            (forall a, a ∈ nodes_list l' -> (next h1 <= a < next h2)%N) /\
            live h2 = nodes_list l' ∪ live h1 /\
            map tree_of l' = map tree_of ch /\ map string_ l' = map string_ ch).
  { clear h h1 t' h'. induction IH as [|c ch Hc _ IHch]; intros h1 l' h2; cbn [duplicate_list].
    - unfold ret. intros [= <- <-]. cbn [nodes_list foldr map].
      split; [lia|]. split; [set_solver|]. split; [set_solver|]. split; reflexivity.
    - unfold bind, ret.
      destruct (duplicate c h1) as [c' h1'] eqn:Ec.
      destruct (duplicate_list ch h1') as [l'' h1''] eqn:El.
      intros [= <- <-].
      destruct (Hc _ _ _ Ec) as (Hn & Ha & Hlive & Ht & Hs & _).
      destruct (IHch _ _ _ El) as (Hn' & Ha' & Hlive' & Ht' & Hs').
      cbn [nodes_list foldr map]. fold (nodes_list l'').
      split; [lia|]. split; [|split; [|split]].
      + intros x Hx. apply elem_of_union in Hx as [Hx|Hx];
          [apply Ha in Hx | apply Ha' in Hx]; lia.
      + rewrite Hlive', Hlive. set_solver.
      + now rewrite Ht, Ht'.
      + now rewrite Hs, Hs'. }
  destruct (duplicate_list ch h1) as [ch' h2] eqn:El.
  intros [= <- <-].
  destruct (Hl _ _ _ El) as (Hn & Ha & Hlive & Ht & Hs). subst h1.
  cbn [next live] in *. rewrite nodes_eq, !tree_of_eq.
  split; [lia|]. split; [|split; [|split; [|split; reflexivity]]].
  - intros x Hx. apply elem_of_union in Hx as [Hx|Hx].
    + apply elem_of_singleton in Hx. lia.
    + apply Ha in Hx. lia.
  - rewrite Hlive. set_solver.
  - destruct ty; try reflexivity; f_equal; [assumption|].
    now apply map_named_tree.
Qed.

Lemma cJSON_Duplicate_spec item h item' h' :
  cJSON_Duplicate item h = (item', h') ->
  (next h <= next h')%N /\
  (forall a, a ∈ nodes_opt item' -> (next h <= a < next h')%N) /\
  live h' = nodes_opt item' ∪ live h /\
  tree_of_opt item' = tree_of_opt item /\
  is_nonnull item' = is_nonnull item.
Proof.
  destruct item as [t|]; unfold cJSON_Duplicate, bind, ret.
  - destruct (duplicate t h) as [t' h1] eqn:E. intros [= <- <-].
    destruct (duplicate_spec _ _ _ _ E) as (Hn & Ha & Hlive & Ht & _).
    cbn [nodes_opt tree_of_opt is_nonnull]. rewrite Ht. auto.
  - intros [= <- <-]. cbn [nodes_opt tree_of_opt is_nonnull].
    split; [lia|]. split; [set_solver|]. split; [set_solver|]. auto.
Qed.

(** ** Structural comparison *)

Lemma compare_eq cs a ta vsa vda nma cha b tb vsb vdb nmb chb :
  compare cs (mk_cJSON a ta vsa vda nma cha) (mk_cJSON b tb vsb vdb nmb chb) =
  cJSON_type_eqb ta tb &&
  match ta with
  | cJSON_Number => double_eqb vda vdb
  | cJSON_String => option_string_eqb vsa vsb
  | cJSON_Array =>
      (fix all (la lb : list cJSON) : bool :=
         match la, lb with
         | [], [] => true
         | x :: la', y :: lb' => compare cs x y && all la' lb'
         | _, _ => false
         end) cha chb
  | cJSON_Object =>
      (fix all (la lb : list cJSON) : bool :=
         match la, lb with
         | [], [] => true
         | x :: la', y :: lb' =>
             name_eqb cs (string_ x) (string_ y) && compare cs x y && all la' lb'
         | _, _ => false
         end) cha chb
  | _ => true
  end.
Proof. reflexivity. Qed.

(** The case-sensitive comparison holds exactly when the two nodes stand
    for the same tree. *)
Lemma compare_tree_of x :
  forall y, compare true x y = true <-> tree_of x = tree_of y.
Proof.
  induction x as [a ta vsa vda nma cha IH] using cJSON_tree_ind.
  intros [b tb vsb vdb nmb chb]. rewrite compare_eq, !tree_of_eq.
  rewrite andb_true_iff, cJSON_type_eqb_eq.
  destruct ta, tb; try (split; [intros [? _]; discriminate | discriminate]);
    try (split; [reflexivity | intros _; split; reflexivity]).
  - rewrite double_eqb_eq. split; [intros [_ ->]; reflexivity | intros [= ->]; auto].
  - unfold option_string_eqb. rewrite name_eqb_eq.
    split; [intros [_ ->]; reflexivity | intros [= ->]; auto].
  - assert (H : forall chb,
        (fix all (la lb : list cJSON) : bool :=
           match la, lb with
           | [], [] => true
           | x :: la', y :: lb' => compare true x y && all la' lb'
           | _, _ => false
           end) cha chb = true <-> map tree_of cha = map tree_of chb).
    { clear chb. induction IH as [|x cha Hx _ IHl]; intros [|y chb]; cbn [map];
        try (split; [reflexivity | reflexivity]);
        try (split; discriminate).
      rewrite andb_true_iff, Hx, IHl.
      split; [intros [-> ->]; reflexivity | intros [= -> ->]; auto]. }
    rewrite H. split; [intros [_ ->]; reflexivity | intros [= ->]; auto].
  - assert (H : forall chb,
        (fix all (la lb : list cJSON) : bool :=
           match la, lb with
           | [], [] => true
           | x :: la', y :: lb' =>
               name_eqb true (string_ x) (string_ y) && compare true x y && all la' lb'
           | _, _ => false
           end) cha chb = true <->
        map (fun c => (string_ c, tree_of c)) cha =
        map (fun c => (string_ c, tree_of c)) chb).
    { clear chb. induction IH as [|x cha Hx _ IHl]; intros [|y chb]; cbn [map];
        try (split; [reflexivity | reflexivity]);
        try (split; discriminate).
      rewrite !andb_true_iff, name_eqb_eq, Hx, IHl.
      split; [intros [[-> ->] ->]; reflexivity | intros [= -> -> ->]; auto]. }
    rewrite H. split; [intros [_ ->]; reflexivity | intros [= ->]; auto].
Qed.

Lemma cJSON_Compare_tree_of a b :
  cJSON_Compare a b true = true <-> tree_of_opt a = tree_of_opt b.
Proof.
  destruct a as [x|], b as [y|]; cbn [cJSON_Compare tree_of_opt];
    try (split; [discriminate | discriminate]); [|tauto].
  rewrite compare_tree_of. split; congruence.
Qed.

(** ** Replacing the root by a leaf *)

Lemma destroy_then_create this ty vs vd h :
  (JsonObject.Destroy this ;; v <- new_item ty vs vd ;;
   ret (JsonObject.set_m_value (Some v) this)) h =
  (JsonObject.set_m_value (Some (mk_cJSON (next h) ty vs vd None [])) this,
   mkHeap (N.succ (next h))
          ({[ next h ]} ∪ (live h ∖ nodes_opt (JsonObject.m_value this)))).
Proof. reflexivity. Qed.

Lemma AsNull_eq this h :
  JsonObject.AsNull this h =
  (JsonObject.set_m_value (Some (mk_cJSON (next h) cJSON_NULL None double_zero None [])) this,
   mkHeap (N.succ (next h)) ({[ next h ]} ∪ live h)).
Proof. reflexivity. Qed.

(** C1, at the input where the code parts from it: a Document that owns
    a string leaf (at address 0) is the receiver of [AsNull].  The null
    leaf becomes the root, but the string leaf stays allocated and is no
    longer reachable from the Document; [AsBool] on the same Document
    releases it. *)
Theorem AsNull_keeps_old_tree_allocated :
  let '(d1, h1) := JsonObject.AsString (JsonObject.empty DefaultAllocator) "x"%string heap0 in
  let '(d2, h2) := JsonObject.AsNull d1 h1 in
  let '(d3, h3) := JsonObject.AsBool d1 true h1 in
  JsonObject.m_value d1 = Some (string_leaf 0 None "x"%string) /\
  JsonObject.m_value d2 = Some (mk_cJSON 1 cJSON_NULL None double_zero None []) /\
  0 ∈ live h1 /\ 0 ∈ live h2 /\ (0 ∉ nodes_opt (JsonObject.m_value d2)) /\
  JsonObject.m_value d3 = Some (mk_cJSON 1 cJSON_True None double_zero None []) /\
  (0 ∉ live h3).
Proof.
  unfold JsonObject.AsString, JsonObject.AsBool, cJSON_CreateString, cJSON_CreateBool.
  rewrite destroy_then_create. rewrite AsNull_eq. rewrite destroy_then_create.
  cbn [JsonObject.m_value JsonObject.set_m_value JsonObject.empty next live heap0
       nodes_opt nodes].
  repeat split; try reflexivity; set_solver.
Qed.

(** The siblings of [AsNull] release the tree the Document owned before
    they install the new leaf. *)
Lemma As_leaf_releases this h :
  (forall a, a ∈ nodes_opt (JsonObject.m_value this) -> (a < next h)%N) ->
  forall (s : String) (b : bool) (z : Z) (d : double),
    let old := nodes_opt (JsonObject.m_value this) in
    let leaf ty vs vd := Some (mk_cJSON (next h) ty vs vd None []) in
    (let '(r, h') := JsonObject.AsString this s h in
     JsonObject.m_value r = leaf cJSON_String (Some (c_str s)) double_zero /\
     released old h') /\
    (let '(r, h') := JsonObject.AsBool this b h in
     JsonObject.m_value r =
       leaf (if b then cJSON_True else cJSON_False) None double_zero /\
     released old h') /\
    (let '(r, h') := JsonObject.AsInteger this z h in
     JsonObject.m_value r = leaf cJSON_Number None (static_cast_double z) /\
     released old h') /\
    (let '(r, h') := JsonObject.AsInt64 this z h in
     JsonObject.m_value r = leaf cJSON_Number None (static_cast_double z) /\
     released old h') /\
    (let '(r, h') := JsonObject.AsDouble this d h in
     JsonObject.m_value r = leaf cJSON_Number None d /\
     released old h').
Proof.
  intros Hold s b z d old leaf.
  assert (Hrel : released old
            (mkHeap (N.succ (next h)) ({[ next h ]} ∪ (live h ∖ old)))).
  { intros a Ha. cbn [live]. specialize (Hold a Ha). set_solver by lia. }
  unfold JsonObject.AsInt64, JsonObject.AsString, JsonObject.AsBool,
    JsonObject.AsInteger, JsonObject.AsDouble, cJSON_CreateString,
    cJSON_CreateBool, cJSON_CreateNumber.
  rewrite !destroy_then_create. repeat split; assumption.
Qed.

(** [AsNull] installs its leaf and releases nothing. *)
Lemma AsNull_releases_nothing this h :
  let '(r, h') := JsonObject.AsNull this h in
  JsonObject.m_value r = Some (mk_cJSON (next h) cJSON_NULL None double_zero None []) /\
  (live h ⊆ live h').
Proof. rewrite AsNull_eq. cbn [live]. split; [reflexivity | set_solver]. Qed.

(** ** Equality of Documents *)

(** C2. [operator==] holds exactly when the two roots stand for the same
    tree (same kinds, same values, same names with their case, same
    order), whatever the addresses, flags and messages of the two
    Documents; and two Documents without a tree are equal. *)
Theorem equality_is_structural (a b : JsonObject.t) :
  (JsonObject.equal a b = true <->
   tree_of_opt (JsonObject.m_value a) = tree_of_opt (JsonObject.m_value b)) /\
  JsonObject.equal (JsonObject.set_m_value None a) (JsonObject.set_m_value None b) = true.
Proof.
  split; [apply cJSON_Compare_tree_of | reflexivity].
Qed.

Example equality_default_constructed (a1 a2 : Allocator) :
  JsonObject.equal (JsonObject.empty a1) (JsonObject.empty a2) = true.
Proof. reflexivity. Qed.

Example equality_is_case_sensitive :
  let d1 := fst (JsonObject.WithString (JsonObject.empty DefaultAllocator)
                   "Key"%string "a"%string heap0) in
  let d2 := fst (JsonObject.WithString (JsonObject.empty DefaultAllocator)
                   "key"%string "a"%string heap0) in
  JsonObject.equal d1 d2 = false /\ JsonObject.equal d1 d1 = true /\
  cJSON_Compare (JsonObject.m_value d1) (JsonObject.m_value d2) false = true.
Proof. vm_compute. auto. Qed.

(** ** Typed accessors of a View *)

(** C3, as the code has it: on a node that is not a string, and on an
    unbound View, [AsString] returns the empty string; it has no fatal
    check. *)
Theorem AsString_defaults_to_empty (v : JsonView.t) :
  JsonView.IsString v = false -> JsonView.AsString v = Returns EmptyString.
Proof.
  unfold JsonView.IsString, JsonView.AsString, cJSON_GetStringValue.
  intros H. destruct (JsonView.m_value v); [rewrite H|]; reflexivity.
Qed.

Lemma AsString_defaults_to_empty_witness :
  JsonView.IsString (JsonView.unbound DefaultAllocator) = false /\
  JsonView.AsString (JsonView.unbound DefaultAllocator) = Returns EmptyString.
Proof.
  split; [reflexivity | apply AsString_defaults_to_empty; reflexivity].
Defined.

(** C3, as the claim has it, fails: a View over a boolean leaf is not a
    string, and [AsString] returns on it. *)
Lemma AsString_on_bool_returns :
  let v := View (fst (JsonObject.AsBool (JsonObject.empty DefaultAllocator) true heap0)) in
  JsonView.IsString v = false /\
  JsonView.AsString v = Returns EmptyString /\
  JsonView.AsString v <> AssertionFailure.
Proof. vm_compute. repeat split; discriminate. Qed.

(** The sibling accessors do check the kind. *)
Lemma As_siblings_assert (v : JsonView.t) :
  (JsonView.IsBool v = false -> JsonView.AsBool v = AssertionFailure) /\
  (cJSON_IsNumber (JsonView.m_value v) = false -> JsonView.AsDouble v = AssertionFailure) /\
  (JsonView.IsObject v = false -> JsonView.AsObject v = AssertionFailure).
Proof.
  unfold JsonView.IsBool, JsonView.AsBool, JsonView.AsDouble, JsonView.IsObject,
    JsonView.AsObject, AWS_ASSERT.
  repeat split; intros ->; reflexivity.
Qed.

(** ** Looking up a named child *)

Lemma find_named_iff key l c :
  List.find (named key) l = Some c <-> child_named key l c.
Proof.
  unfold child_named. split.
  - revert c. induction l as [|x l IH]; intros c; cbn [List.find]; [discriminate|].
    destruct (named key x) eqn:E.
    + intros [= <-]. exists [], l. apply named_iff in E. auto.
    + intros H. destruct (IH _ H) as (pre & post & -> & Hn & Hpre).
      exists (x :: pre), post. apply named_false_iff in E. auto.
  - intros (pre & post & -> & Hn & Hpre).
    induction Hpre as [|x pre Hx _ IH]; cbn [List.find app].
    + apply named_iff in Hn. now rewrite Hn.
    + apply named_false_iff in Hx. now rewrite Hx.
Qed.

Lemma find_named_none key l :
  List.find (named key) l = None <-> Forall (fun x => string_ x <> Some key) l.
Proof.
  induction l as [|x l IH]; cbn [List.find]; [split; auto|].
  destruct (named key x) eqn:E.
  - split; [discriminate|]. intros H. apply Forall_cons in H as [H _].
    apply named_iff in E. contradiction.
  - rewrite IH. apply named_false_iff in E. split; [auto|].
    intros H. now apply Forall_cons in H as [_ H].
Qed.

Lemma find_named_some key l :
  is_nonnull (List.find (named key) l) = true <->
  exists c, In c l /\ string_ c = Some key.
Proof.
  split.
  - destruct (List.find (named key) l) as [c|] eqn:E; [|discriminate].
    intros _. apply find_some in E as [Hin Hn]. apply named_iff in Hn. eauto.
  - intros (c & Hin & Hn).
    destruct (List.find (named key) l) as [c'|] eqn:E; [reflexivity|].
    apply find_none with (x := c) in E; [|assumption].
    apply named_iff in Hn. congruence.
Qed.

Lemma IsObject_children (v : JsonView.t) :
  JsonView.IsObject v = true ->
  exists n, JsonView.m_value v = Some n /\ type n = cJSON_Object /\ children v = child n.
Proof.
  unfold JsonView.IsObject, cJSON_IsObject, has_type, children.
  destruct (JsonView.m_value v) as [n|]; [|discriminate].
  intros H. apply cJSON_type_eqb_eq in H. eauto.
Qed.

(** C9. On a View over an object without a child named [key],
    [GetJsonObject] passes its check and returns an unbound View, on
    which every kind test is false. *)
Theorem GetJsonObject_missing_key (v : JsonView.t) (key : string) :
  JsonView.IsObject v = true ->
  Forall (fun c => string_ c <> Some key) (children v) ->
  exists r,
    JsonView.GetJsonObject v key = Returns r /\
    JsonView.m_value r = None /\
    JsonView.IsObject r = false /\ JsonView.IsBool r = false /\
    JsonView.IsString r = false /\ JsonView.IsListType r = false /\
    JsonView.IsNull r = false.
Proof.
  intros Hobj Hnone. destruct (IsObject_children v Hobj) as (n & Hv & _ & Hch).
  rewrite Hch in Hnone. apply find_named_none in Hnone.
  exists (JsonView.of_cJSON None DefaultAllocator).
  unfold JsonView.GetJsonObject, cJSON_GetObjectItemCaseSensitive.
  rewrite Hv, Hnone. repeat split; reflexivity.
Qed.

Lemma GetJsonObject_missing_key_witness :
  let v := View (fst (JsonObject.WithString (JsonObject.empty DefaultAllocator)
                        "a"%string "1"%string heap0)) in
  JsonView.IsObject v = true /\
  exists r,
    JsonView.GetJsonObject v "b"%string = Returns r /\
    JsonView.m_value r = None /\
    JsonView.IsObject r = false /\ JsonView.IsBool r = false /\
    JsonView.IsString r = false /\ JsonView.IsListType r = false /\
    JsonView.IsNull r = false.
Proof.
  split; [reflexivity|].
  apply GetJsonObject_missing_key; [reflexivity|].
  vm_compute. repeat constructor; discriminate.
Defined.

(** C7. On a View over an object, [KeyExists] tells whether some child
    carries the name, and [ValueExists] whether the child of that name is
    something other than JSON null. *)
Theorem KeyExists_ValueExists_spec (v : JsonView.t) (key : string) :
  JsonView.IsObject v = true ->
  (JsonView.KeyExists v key = true <->
   exists c, In c (children v) /\ string_ c = Some key) /\
  (JsonView.ValueExists v key = true <->
   exists c, child_named key (children v) c /\ type c <> cJSON_NULL).
Proof.
  intros Hobj. destruct (IsObject_children v Hobj) as (n & Hv & _ & Hch).
  unfold JsonView.KeyExists, JsonView.ValueExists.
  unfold JsonView.IsObject in Hobj. rewrite Hobj, Hch. cbn [negb].
  unfold cJSON_GetObjectItemCaseSensitive. rewrite Hv. split.
  - apply find_named_some.
  - destruct (List.find (named key) (child n)) as [c|] eqn:E.
    + cbn [is_nonnull negb orb]. unfold cJSON_IsNull, has_type.
      split.
      * intros H. exists c. split; [now apply find_named_iff|].
        intros Hty. rewrite Hty in H. discriminate.
      * intros (c' & Hc' & Hty). apply find_named_iff in Hc'.
        assert (c' = c) as -> by congruence.
        destruct (type c); try reflexivity. congruence.
    + cbn [is_nonnull negb orb]. split; [discriminate|].
      intros (c' & Hc' & _). apply find_named_iff in Hc'. congruence.
Qed.


Lemma KeyExists_ValueExists_spec_witness :
  let v := View null_member in
  JsonView.IsObject v = true /\
  (JsonView.KeyExists v "a"%string = true <->
   exists c, In c (children v) /\ string_ c = Some "a"%string) /\
  (JsonView.ValueExists v "a"%string = true <->
   exists c, child_named "a"%string (children v) c /\ type c <> cJSON_NULL).
Proof.
  split; [reflexivity | apply KeyExists_ValueExists_spec; reflexivity].
Defined.

(** Null against missing: [{"a": null}] has the key and not the value;
    [{}] has neither. *)
Example null_vs_missing :
  tree_of_opt (JsonObject.m_value null_member) = Some (Object [(Some "a"%string, Null)]) /\
  JsonView.KeyExists (View null_member) "a"%string = true /\
  JsonView.ValueExists (View null_member) "a"%string = false /\
  exists v,
    JsonView.GetJsonObject (View empty_member) "o"%string = Returns v /\
    tree_of_opt (JsonView.m_value v) = Some (Object []) /\
    JsonView.KeyExists v "a"%string = false /\
    JsonView.ValueExists v "a"%string = false.
Proof.
  repeat split; try (vm_compute; reflexivity).
  eexists. repeat split; vm_compute; reflexivity.
Qed.

(** ** Adding or replacing a named child *)

Lemma named_set_string key item : named key (set_string (Some key) item) = true.
Proof. apply named_iff. reflexivity. Qed.

Lemma index_named_find key l :
  is_nonnull (index_named key l) = is_nonnull (List.find (named key) l).
Proof.
  induction l as [|c l IH]; cbn [index_named List.find]; [reflexivity|].
  destruct (named key c); [reflexivity|].
  rewrite <- IH. now destruct (index_named key l).
Qed.

Lemma replace_named_upsert key item l :
  is_nonnull (List.find (named key) l) = true ->
  replace_named key item l = upsert key item l.
Proof.
  induction l as [|c l IH]; cbn [List.find replace_named upsert]; [discriminate|].
  destruct (named key c); [reflexivity|]. intros H. now rewrite IH.
Qed.

Lemma append_upsert key item l :
  List.find (named key) l = None -> l ++ [item] = upsert key item l.
Proof.
  induction l as [|c l IH]; cbn [List.find upsert app]; [reflexivity|].
  destruct (named key c); [discriminate|]. intros H. now rewrite IH.
Qed.

(** [AddOrReplace] in one equation: the item, named [key], takes the
    place [upsert] gives it, and the child it ousts is released. *)
Lemma AddOrReplace_eq root key value h :
  AddOrReplace root key value h =
  (set_child (upsert key (set_string (Some key) value) (child root)) root,
   mkHeap (next h) (live h ∖ nodes_opt (List.find (named key) (child root)))).
Proof.
  unfold AddOrReplace, cJSON_ReplaceItemInObjectCaseSensitive,
    cJSON_GetObjectItemCaseSensitive.
  destruct (List.find (named key) (child root)) as [existing|] eqn:E.
  - unfold bind, cJSON_Delete, free, ret. rewrite replace_named_upsert; [reflexivity|].
    now rewrite E.
  - unfold ret, cJSON_AddItemToObject, cJSON_AddItemToArray.
    rewrite (append_upsert key) by assumption. cbn [nodes_opt].
    destruct h as [n l]. cbn [next live]. f_equal. f_equal. set_solver.
Qed.

Lemma find_upsert key item l :
  named key item = true -> List.find (named key) (upsert key item l) = Some item.
Proof.
  intros Hn. induction l as [|c l IH]; cbn [upsert List.find].
  - now rewrite Hn.
  - destruct (named key c) eqn:E; cbn [List.find]; [now rewrite Hn | now rewrite E].
Qed.

Lemma index_named_upsert key item l :
  named key item = true -> index_named key (upsert key item l) = Some (place key l).
Proof.
  intros Hn. unfold place.
  induction l as [|c l IH]; cbn [upsert index_named length].
  - now rewrite Hn.
  - destruct (named key c) eqn:E; cbn [index_named]; [now rewrite Hn|].
    rewrite E, IH. now destruct (index_named key l).
Qed.

Lemma lookup_upsert key item l : upsert key item l !! place key l = Some item.
Proof.
  unfold place. induction l as [|c l IH]; cbn [upsert index_named length]; [reflexivity|].
  destruct (named key c); [reflexivity|].
  destruct (index_named key l); exact IH.
Qed.

Lemma count_named_upsert key item l :
  named key item = true ->
  count_named key (upsert key item l) = Nat.max 1 (count_named key l).
Proof.
  intros Hn. unfold count_named.
  induction l as [|c l IH]; cbn [upsert List.filter length].
  - now rewrite Hn.
  - destruct (named key c) eqn:E; cbn [List.filter].
    + rewrite Hn. cbn [length]. lia.
    + now rewrite E.
Qed.

Lemma upsert_upsert key item item' l :
  named key item' = true ->
  upsert key item (upsert key item' l) = upsert key item l.
Proof.
  intros Hn. induction l as [|c l IH]; cbn [upsert].
  - now rewrite Hn.
  - destruct (named key c) eqn:E; cbn [upsert]; [now rewrite Hn|].
    now rewrite E, IH.
Qed.

Lemma find_nodes key l c :
  List.find (named key) l = Some c -> nodes c ⊆ nodes_list l.
Proof.
  induction l as [|x l IH]; cbn [List.find nodes_list foldr]; [discriminate|].
  fold (nodes_list l). destruct (named key x).
  - intros [= ->]. set_solver.
  - intros H. apply IH in H. set_solver.
Qed.

Lemma object_root_spec this h root h0 :
  JsonObject.object_root this h = (root, h0) ->
  match JsonObject.m_value this with
  | None => root = mk_cJSON (next h) cJSON_Object None double_zero None [] /\
            h0 = mkHeap (N.succ (next h)) ({[ next h ]} ∪ live h)
  | Some r => root = r /\ h0 = h
  end.
Proof.
  unfold JsonObject.object_root. destruct (JsonObject.m_value this) as [r|].
  - unfold ret. intros [= <- <-]. auto.
  - intros [= <- <-]. auto.
Qed.

(** The root a mutator works on has the children of the Document, holds
    no node outside the Document's tree but itself, and costs no release. *)
Lemma object_root_frame this h root h0 :
  JsonObject.object_root this h = (root, h0) ->
  child root = children (View this) /\
  (nodes_list (child root) ⊆ nodes_opt (JsonObject.m_value this)) /\
  (next h <= next h0)%N /\ (live h ⊆ live h0) /\
  (object_or_null (JsonObject.m_value this) = true -> type root = cJSON_Object).
Proof.
  intros H. apply object_root_spec in H. unfold children, View, JsonView.of_JsonObject.
  cbn [JsonView.m_value]. unfold object_or_null, cJSON_IsObject, has_type.
  destruct (JsonObject.m_value this) as [r|]; destruct H as [-> ->].
  - cbn [nodes_opt is_nonnull negb orb]. rewrite (nodes_unfold r).
    repeat split; [set_solver | lia | set_solver | apply cJSON_type_eqb_eq].
  - cbn [child next live nodes_opt nodes_list foldr type].
    repeat split; [set_solver | lia | set_solver].
Qed.

Lemma WithString_eq this key value h :
  JsonObject.WithString this key value h =
  let '(root, h0) := JsonObject.object_root this h in
  (JsonObject.set_m_value
     (Some (set_child (upsert key (string_leaf (next h0) (Some key) (c_str value))
                              (child root)) root)) this,
   mkHeap (N.succ (next h0))
          (({[ next h0 ]} ∪ live h0) ∖ nodes_opt (List.find (named key) (child root)))).
Proof.
  unfold JsonObject.WithString, bind at 1.
  destruct (JsonObject.object_root this h) as [root h0].
  unfold cJSON_CreateString, new_item, bind, malloc, ret.
  rewrite AddOrReplace_eq. reflexivity.
Qed.

(** ** Idempotent replace *)

(** C4, as the code has it: on a Document whose root is null or an
    object with at most one child named [key], two [WithString] calls on
    the key leave an object with exactly one child of that name, holding
    the second text (as the C string that is passed on) at the place the
    first call gave the key. *)
Theorem WithString_twice_replaces_in_place
    (this : JsonObject.t) (key : string) (v1 v2 : String) (h : Heap) :
  object_or_null (JsonObject.m_value this) = true ->
  (count_named key (children (View this)) <= 1)%nat ->
  replaced_in_place (c_str v2) this key v1 v2 h.
Proof.
  intros Hroot Hcount. unfold replaced_in_place.
  rewrite WithString_eq.
  destruct (JsonObject.object_root this h) as [root h0] eqn:Eroot.
  destruct (object_root_frame _ _ _ _ Eroot) as (Hch & _ & _ & _ & Hty).
  specialize (Hty Hroot). rewrite <- Hch in Hcount.
  rewrite WithString_eq. unfold JsonObject.object_root.
  cbn [JsonObject.m_value JsonObject.set_m_value ret child set_child next].
  set (leaf1 := string_leaf (next h0) (Some key) (c_str v1)).
  set (leaf2 := string_leaf (N.succ (next h0)) (Some key) (c_str v2)).
  assert (Hn1 : named key leaf1 = true) by (apply named_iff; reflexivity).
  assert (Hn2 : named key leaf2 = true) by (apply named_iff; reflexivity).
  eexists _, _, (place key (child root)), leaf2.
  split; [reflexivity|]. split; [reflexivity|].
  cbn [type child set_child]. rewrite upsert_upsert by assumption.
  split; [assumption|]. split.
  { rewrite count_named_upsert by assumption. lia. }
  split; [now apply index_named_upsert|].
  split; [now apply index_named_upsert|].
  split; [apply lookup_upsert|]. repeat split.
Qed.

Lemma WithString_twice_replaces_in_place_witness :
  let d := fst (JsonObject.WithString (JsonObject.empty DefaultAllocator) "n"%string "a"%string heap0) in
  let h := snd (JsonObject.WithString (JsonObject.empty DefaultAllocator) "n"%string "a"%string heap0) in
  object_or_null (JsonObject.m_value d) = true /\
  (count_named "k"%string (children (View d)) <= 1)%nat /\
  replaced_in_place "y"%string d "k"%string "x"%string "y"%string h.
Proof.
  split; [reflexivity|]. split; [vm_compute; lia|].
  apply (WithString_twice_replaces_in_place _ "k"%string "x"%string "y"); [reflexivity | vm_compute; lia].
Defined.

(** C4, as the claim has it, fails on a Document whose root is not an
    object: after [AsString("x")] the root is a string leaf, and stays
    one under [WithString]. *)
Lemma WithString_twice_on_string_root :
  let '(d, h) := JsonObject.AsString (JsonObject.empty DefaultAllocator) "x"%string heap0 in
  ~ replaced_in_place "b"%string d "k"%string "a"%string "b"%string h.
Proof.
  unfold JsonObject.AsString, cJSON_CreateString. rewrite destroy_then_create.
  unfold replaced_in_place. rewrite !WithString_eq.
  cbn [JsonObject.object_root JsonObject.m_value JsonObject.set_m_value ret].
  intros (root1 & root2 & i & c & _ & H2 & Hty & _).
  injection H2 as <-. discriminate Hty.
Qed.

(** The text a [WithString] stores ends at the first NUL of the value. *)
Example WithString_stores_c_str :
  let nul := String.String Ascii.zero EmptyString in
  let d := fst (JsonObject.WithString (JsonObject.empty DefaultAllocator) "k"
                  (String.append "a"%string (String.append nul "b")) heap0) in
  tree_of_opt (JsonObject.m_value d) = Some (Object [(Some "k"%string, Text (Some "a"%string))]).
Proof. vm_compute. reflexivity. Qed.

(** ** Objects and arrays taken from other Documents *)

Lemma lookup_after_AddOrReplace root key value h :
  let '(root', h') := AddOrReplace root key value h in
  cJSON_GetObjectItemCaseSensitive (Some root') key = Some (set_string (Some key) value) /\
  self root' = self root /\ type root' = type root /\
  next h' = next h /\
  live h' = live h ∖ nodes_opt (List.find (named key) (child root)).
Proof.
  rewrite AddOrReplace_eq. cbn [cJSON_GetObjectItemCaseSensitive child set_child].
  rewrite find_upsert by apply named_set_string. repeat split.
Qed.

(** Run the [AddOrReplace] call at the head of the goal, keeping what
    [lookup_after_AddOrReplace] says of its result as [H]. *)
Ltac run_AddOrReplace H :=
  match goal with
  | |- context [AddOrReplace ?root ?k ?v ?h1] =>
      pose proof (lookup_after_AddOrReplace root k v h1) as H;
      destruct (AddOrReplace root k v h1) as [? ?]
  end.

(** What a mutator releases lies in the tree the Document owned. *)
Lemma replaced_child_owned this h root h0 key :
  JsonObject.object_root this h = (root, h0) ->
  nodes_opt (List.find (named key) (child root)) ⊆ nodes_opt (JsonObject.m_value this).
Proof.
  intros H. destruct (object_root_frame _ _ _ _ H) as (_ & Hsub & _).
  destruct (List.find (named key) (child root)) as [c|] eqn:E; cbn [nodes_opt].
  - apply find_nodes in E. set_solver.
  - set_solver.
Qed.

Lemma adopt_all_eq arrayValue array :
  JsonObject.adopt_all arrayValue array =
  (set_child (child arrayValue ++ omap JsonObject.m_value array) arrayValue,
   map (JsonObject.set_m_value None) array).
Proof.
  revert arrayValue. induction array as [|i rest IH]; intros arrayValue;
    cbn [JsonObject.adopt_all omap list_omap map].
  - rewrite app_nil_r. now destruct arrayValue.
  - rewrite IH. unfold cJSON_AddItemToArray.
    destruct (JsonObject.m_value i) as [c|]; [|reflexivity].
    cbn [child set_child self type valuestring valuedouble string_].
    now rewrite <- app_assoc.
Qed.

Lemma add_duplicates_spec array :
  forall arrayValue h arrayValue' h',
    JsonObject.add_duplicates arrayValue array h = (arrayValue', h') ->
    exists copies,
      arrayValue' = set_child (child arrayValue ++ copies) arrayValue /\
      map tree_of copies = map tree_of (omap JsonObject.m_value array) /\
      (forall a, a ∈ nodes_list copies -> (next h <= a < next h')%N) /\
      (next h <= next h')%N /\
      live h' = nodes_list copies ∪ live h.
Proof.
  induction array as [|i rest IH]; intros arrayValue h arrayValue' h';
    cbn [JsonObject.add_duplicates omap list_omap].
  - unfold ret. intros [= <- <-]. exists []. rewrite app_nil_r.
    cbn [nodes_list foldr map]. split; [now destruct arrayValue|].
    split; [reflexivity|]. split; [set_solver|]. split; [lia | set_solver].
  - unfold bind.
    destruct (cJSON_Duplicate (JsonObject.m_value i) h) as [c h1] eqn:Ec.
    intros Hrest. apply IH in Hrest as (copies & -> & Ht & Ha & Hn & Hlive).
    apply cJSON_Duplicate_spec in Ec as (Hn1 & Ha1 & Hlive1 & Ht1 & Hnn).
    destruct (JsonObject.m_value i) as [v|], c as [c|]; try discriminate.
    + exists (c :: copies). cbn [cJSON_AddItemToArray child set_child].
      cbn [nodes_opt tree_of_opt] in *. injection Ht1 as Ht1.
      split; [now rewrite <- app_assoc|].
      cbn [map nodes_list foldr]. fold (nodes_list copies).
      split; [now rewrite Ht, Ht1|]. split; [|split; [lia|]].
      * intros a Hin. apply elem_of_union in Hin as [Hin|Hin];
          [apply Ha1 in Hin | apply Ha in Hin]; lia.
      * rewrite Hlive, Hlive1. set_solver.
    + exists copies. cbn [cJSON_AddItemToArray nodes_opt] in *.
      split; [reflexivity|]. split; [assumption|]. split; [|split; [lia|]].
      * intros a Hin. apply Ha in Hin. lia.
      * rewrite Hlive, Hlive1. set_solver.
Qed.

(** C8. [WithObject] puts under the key an empty object when the source
    has no tree, never nothing.  The copy form puts a duplicate of the
    source's tree there, made of nodes that did not exist before, and
    releases nothing outside the receiver's own tree; the move form puts
    the source's root itself there, renamed but with its address and its
    subtree, and leaves the source without a tree. *)
Theorem WithObject_copy_and_move
    (this : JsonObject.t) (key : string) (value : JsonObject.t) (h : Heap) :
  (let '(d, h') := JsonObject.WithObject this key value h in
   exists c,
     cJSON_GetObjectItemCaseSensitive (JsonObject.m_value d) key = Some c /\
     string_ c = Some key /\
     match JsonObject.m_value value with
     | None => type c = cJSON_Object /\ child c = []
     | Some v => tree_of c = tree_of v
     end /\
     (forall a, a ∈ nodes c -> (next h <= a)%N) /\
     (forall a, a ∈ live h -> a ∉ nodes_opt (JsonObject.m_value this) -> a ∈ live h')) /\
  (let '(d, value', h') := JsonObject.WithObject_move this key value h in
   JsonObject.m_value value' = None /\
   exists c,
     cJSON_GetObjectItemCaseSensitive (JsonObject.m_value d) key = Some c /\
     string_ c = Some key /\
     match JsonObject.m_value value with
     | None => type c = cJSON_Object /\ child c = []
     | Some v => c = set_string (Some key) v /\ nodes c = nodes v
     end).
Proof.
  split.
  - unfold JsonObject.WithObject, bind at 1.
    destruct (JsonObject.object_root this h) as [root h0] eqn:Eroot.
    pose proof (replaced_child_owned _ _ _ _ key Eroot) as Hrep.
    destruct (object_root_frame _ _ _ _ Eroot) as (_ & _ & Hn0 & Hl0 & _).
    unfold bind at 1.
    destruct (match JsonObject.m_value value with
              | Some v => duplicate v
              | None => cJSON_CreateObject
              end h0) as [copy h1] eqn:Ecopy.
    unfold bind, ret.
    run_AddOrReplace Hlook.
    destruct Hlook as (Hfind & _ & _ & _ & Hlive).
    cbn [JsonObject.m_value JsonObject.set_m_value].
    exists (set_string (Some key) copy). split; [assumption|].
    split; [reflexivity|]. rewrite nodes_set_string.
    destruct (JsonObject.m_value value) as [v|].
    + apply duplicate_spec in Ecopy as (Hn1 & Ha1 & Hlive1 & Ht & _).
      split; [now destruct copy|]. split.
      * intros a Hin. apply Ha1 in Hin. lia.
      * intros a Hin Hnot. rewrite Hlive, Hlive1. set_solver.
    + injection Ecopy as <- <-. cbn [type child set_string nodes live].
      split; [auto|]. split.
      * intros a Hin. apply elem_of_union in Hin as [Hin|Hin]; [|set_solver].
        apply elem_of_singleton in Hin. lia.
      * intros a Hin Hnot. rewrite Hlive. cbn [live]. set_solver.
  - unfold JsonObject.WithObject_move, bind at 1.
    destruct (JsonObject.object_root this h) as [root h0] eqn:Eroot.
    unfold bind at 1.
    destruct (match JsonObject.m_value value with
              | Some v => ret v
              | None => cJSON_CreateObject
              end h0) as [item h1] eqn:Eitem.
    unfold bind, ret.
    run_AddOrReplace Hlook.
    destruct Hlook as (Hfind & _).
    cbn [JsonObject.m_value JsonObject.set_m_value].
    split; [reflexivity|].
    exists (set_string (Some key) item). split; [assumption|].
    split; [reflexivity|].
    destruct (JsonObject.m_value value) as [v|].
    + injection Eitem as <- <-. split; [reflexivity | apply nodes_set_string].
    + injection Eitem as <- <-. split; reflexivity.
Qed.

(** C5. The move form of [WithArray] leaves every element of the vector
    without a tree, the roots they had being the elements of the array,
    in order.  The copy form fills the array with duplicates of the
    elements' trees, made of nodes that did not exist before, and
    releases nothing outside the receiver's own tree; it has no access by
    which to change the vector. *)
Theorem WithArray_move_and_copy
    (this : JsonObject.t) (key : String) (array : list JsonObject.t) (h : Heap) :
  (let '(d, array', h') := JsonObject.WithArray_move this key array h in
   Forall (fun i => JsonObject.m_value i = None) array' /\
   array' = map (JsonObject.set_m_value None) array /\
   exists arr,
     cJSON_GetObjectItemCaseSensitive (JsonObject.m_value d) (c_str key) = Some arr /\
     type arr = cJSON_Array /\
     child arr = omap JsonObject.m_value array) /\
  (let '(d, h') := JsonObject.WithArray this key array h in
   exists arr,
     cJSON_GetObjectItemCaseSensitive (JsonObject.m_value d) (c_str key) = Some arr /\
     type arr = cJSON_Array /\
     map tree_of (child arr) = map tree_of (omap JsonObject.m_value array) /\
     (forall a, a ∈ nodes arr -> (next h <= a)%N) /\
     (forall a, a ∈ live h -> a ∉ nodes_opt (JsonObject.m_value this) -> a ∈ live h')).
Proof.
  split.
  - unfold JsonObject.WithArray_move, bind at 1.
    destruct (JsonObject.object_root this h) as [root h0] eqn:Eroot.
    unfold cJSON_CreateArray, new_item, bind at 1. unfold bind at 1, malloc, ret.
    rewrite adopt_all_eq. unfold bind.
    run_AddOrReplace Hlook.
    destruct Hlook as (Hfind & _).
    cbn [JsonObject.m_value JsonObject.set_m_value].
    split; [|split; [reflexivity|]].
    + clear. induction array as [|i rest IH]; cbn [map]; constructor;
        [reflexivity | assumption].
    + eexists. split; [exact Hfind|]. split; reflexivity.
  - unfold JsonObject.WithArray, bind at 1.
    destruct (JsonObject.object_root this h) as [root h0] eqn:Eroot.
    pose proof (replaced_child_owned _ _ _ _ (c_str key) Eroot) as Hrep.
    destruct (object_root_frame _ _ _ _ Eroot) as (_ & _ & Hn0 & Hl0 & _).
    unfold cJSON_CreateArray, new_item, bind at 1. unfold bind at 1, malloc, ret.
    unfold bind at 1.
    match goal with
    | |- context [JsonObject.add_duplicates ?a array ?h1] =>
        destruct (JsonObject.add_duplicates a array h1) as [arr h2] eqn:Edup
    end.
    apply add_duplicates_spec in Edup as (copies & -> & Ht & Ha & Hn & Hlive).
    cbn [child app next live] in *. unfold bind.
    run_AddOrReplace Hlook.
    destruct Hlook as (Hfind & _ & _ & _ & Hlive').
    cbn [JsonObject.m_value JsonObject.set_m_value].
    eexists. split; [exact Hfind|]. split; [reflexivity|].
    split; [exact Ht|]. rewrite nodes_set_string. split.
    + intros a Hin. rewrite nodes_unfold in Hin. cbn [self child set_child] in Hin.
      apply elem_of_union in Hin as [Hin|Hin].
      * apply elem_of_singleton in Hin. lia.
      * apply Ha in Hin. lia.
    + intros a Hin Hnot. rewrite Hlive', Hlive. set_solver.
Qed.

(** ** Assignment through [AsObject] *)

(** The parser decides the flag of a Document made from text: when it
    yields no tree, the flag is cleared and the message names the place. *)
Lemma of_text_failure parse value a h rest h' :
  parse (c_str value) h = (None, rest, h') ->
  JsonObject.of_text parse value a h =
  (JsonObject.mk a None false (String.append "Failed to parse JSON at: " rest), h').
Proof.
  intros H. unfold JsonObject.of_text, bind. rewrite H. reflexivity.
Qed.

(** C10. The copy form of [AsObject] is copy assignment: from a source
    that parsed, a Document whose parse had failed takes the flag and the
    message along with the tree.  The leaf mutators leave both as they
    were. *)
Theorem AsObject_copy_overwrites_parse_state (this o : JsonObject.t) (h : Heap) :
  JsonObject.m_wasParseSuccessful this = false ->
  JsonObject.m_wasParseSuccessful o = true ->
  let d := fst (JsonObject.AsObject this (JsonObject.other_object o) h) in
  JsonObject.m_wasParseSuccessful d = true /\
  JsonObject.m_errorMessage d = JsonObject.m_errorMessage o /\
  tree_of_opt (JsonObject.m_value d) = tree_of_opt (JsonObject.m_value o) /\
  forall (s : String) (b : bool) (z : Z) (x : double) (l : list JsonObject.t),
    let unchanged r :=
      JsonObject.m_wasParseSuccessful r = false /\
      JsonObject.m_errorMessage r = JsonObject.m_errorMessage this in
    unchanged (fst (JsonObject.AsString this s h)) /\
    unchanged (fst (JsonObject.AsBool this b h)) /\
    unchanged (fst (JsonObject.AsInteger this z h)) /\
    unchanged (fst (JsonObject.AsInt64 this z h)) /\
    unchanged (fst (JsonObject.AsDouble this x h)) /\
    unchanged (fst (JsonObject.AsNull this h)) /\
    unchanged (fst (JsonObject.AsArray this l h)) /\
    unchanged (fst (fst (JsonObject.AsArray_move this l h))).
Proof.
  intros Hthis Ho d. subst d.
  unfold JsonObject.AsObject, JsonObject.assign, JsonObject.Destroy, cJSON_Delete,
    bind, free, ret.
  destruct (cJSON_Duplicate (JsonObject.m_value o) _) as [v h1] eqn:E.
  apply cJSON_Duplicate_spec in E as (_ & _ & _ & Ht & _).
  cbn [fst JsonObject.m_wasParseSuccessful JsonObject.m_errorMessage JsonObject.m_value].
  split; [assumption|]. split; [reflexivity|]. split; [assumption|].
  intros s b z x l.
  unfold JsonObject.AsArray, JsonObject.AsArray_move, cJSON_CreateArray, new_item,
    bind, malloc, ret.
  rewrite adopt_all_eq.
  destruct (JsonObject.add_duplicates _ l _) as [arr h2].
  cbn [fst JsonObject.set_m_value JsonObject.m_wasParseSuccessful
       JsonObject.m_errorMessage].
  repeat split; assumption.
Qed.

Lemma AsObject_copy_overwrites_parse_state_witness :
  JsonObject.m_wasParseSuccessful failed_parse = false /\
  JsonObject.m_errorMessage failed_parse <> EmptyString /\
  let d := fst (JsonObject.AsObject failed_parse
                  (JsonObject.other_object (JsonObject.empty DefaultAllocator)) heap0) in
  JsonObject.m_wasParseSuccessful d = true /\
  JsonObject.m_errorMessage d = EmptyString.
Proof.
  split; [reflexivity|]. split; [discriminate|].
  destruct (AsObject_copy_overwrites_parse_state failed_parse
              (JsonObject.empty DefaultAllocator) heap0 eq_refl eq_refl)
    as (Hflag & Hmsg & _).
  split; [exact Hflag | exact Hmsg].
Defined.

(** Assigning a Document to itself changes nothing. *)
Lemma AsObject_self (this : JsonObject.t) (h : Heap) :
  JsonObject.AsObject this JsonObject.this_object h = (this, h).
Proof. reflexivity. Qed.


(** ** The builders on concrete Documents *)

(** The scenario of section 8:
    [WithString("name","a").WithInteger("count",3).WithArray("tags",{"x","y"})]. *)
Example builder_scenario :
  let '(d1, h1) := JsonObject.WithString (JsonObject.empty DefaultAllocator) "name" "a" heap0 in
  let '(d2, h2) := JsonObject.WithInteger d1 "count" 3 h1 in
  let '(d3, h3) := JsonObject.WithArray_strings d2 "tags" ["x"; "y"]%string h2 in
  tree_of_opt (JsonObject.m_value d3) =
  Some (Object [(Some "name", Text (Some "a"));
                (Some "count", Number (S754_finite false 6755399441055744 (-51)));
                (Some "tags", Array [Text (Some "x"); Text (Some "y")])]%string) /\
  next h3 = 6 /\ live h3 = list_to_set [0; 1; 2; 3; 4; 5].
Proof.
  split; [vm_compute; reflexivity|]. split; [reflexivity|].
  apply set_eq. intros a. cbn. set_solver.
Qed.

(** A vector of three Documents, the second without a tree, moved and
    copied into an array. *)
Example WithArray_on_three :
  let '(a, h1) := JsonObject.AsString (JsonObject.empty DefaultAllocator) "a" heap0 in
  let e := JsonObject.empty DefaultAllocator in
  let '(b, h2) := JsonObject.AsBool (JsonObject.empty DefaultAllocator) true h1 in
  let expected := Some (Object [(Some "k", Array [Text (Some "a"); Boolean true])]%string) in
  (let '(d, docs, h3) := JsonObject.WithArray_move (JsonObject.empty DefaultAllocator)
                           "k" [a; e; b] h2 in
   tree_of_opt (JsonObject.m_value d) = expected /\
   map JsonObject.m_value docs = [None; None; None] /\
   next h3 = 4) /\
  (let '(d, h3) := JsonObject.WithArray (JsonObject.empty DefaultAllocator)
                     "k" [a; e; b] h2 in
   tree_of_opt (JsonObject.m_value d) = expected /\ next h3 = 6).
Proof. vm_compute. repeat split; reflexivity. Qed.

(** [WithObject] from a Document without a tree, in both forms. *)
Example WithObject_from_empty :
  let e := JsonObject.empty DefaultAllocator in
  tree_of_opt (JsonObject.m_value (fst (JsonObject.WithObject e "o" e heap0))) =
    Some (Object [(Some "o"%string, Object [])]) /\
  tree_of_opt (JsonObject.m_value (fst (fst (JsonObject.WithObject_move e "o" e heap0)))) =
    Some (Object [(Some "o"%string, Object [])]).
Proof. vm_compute. split; reflexivity. Qed.

(** ** Serialization of an unbound View *)

(** Whatever the printer, an unbound View is written as an empty object
    when asked to be treated as one, and as the empty text otherwise. *)
Lemma WriteCompact_unbound (print : cJSON -> string) (a : Allocator) :
  JsonView.WriteCompact print (JsonView.unbound a) true = "{}"%string /\
  JsonView.WriteCompact print (JsonView.unbound a) false = EmptyString.
Proof. split; reflexivity. Qed.

(** * Further properties of the code *)

(** ** Ownership is kept: no leak, no dangling node *)







Lemma add_strings_spec array :
  forall arrayValue h arrayValue' h',
    JsonObject.add_strings arrayValue array h = (arrayValue', h') ->
    exists leaves,
      arrayValue' = set_child (child arrayValue ++ leaves) arrayValue /\
      map tree_of leaves = map (fun s => Text (Some (c_str s))) array /\
      Forall (fun c => type c = cJSON_String) leaves /\
      map valuestring leaves = map (fun s => Some (c_str s)) array /\
      (forall a, a ∈ nodes_list leaves -> (next h <= a < next h')%N) /\
      (next h <= next h')%N /\
      live h' = nodes_list leaves ∪ live h.
Proof.
  induction array as [|i rest IH]; intros arrayValue h arrayValue' h';
    cbn [JsonObject.add_strings].
  - unfold ret. intros [= <- <-]. exists []. rewrite app_nil_r.
    cbn [nodes_list foldr map]. split; [now destruct arrayValue|].
    repeat split; try constructor; try lia; set_solver.
  - unfold bind at 1, cJSON_CreateString, new_item, bind, malloc, ret.
    intros Hrest. apply IH in Hrest as (leaves & -> & Ht & Hty & Hvs & Ha & Hn & Hlive).
    cbn [cJSON_AddItemToArray child set_child next live] in *.
    exists (string_leaf (next h) None (c_str i) :: leaves).
    split; [now rewrite <- app_assoc|].
    cbn [map nodes_list foldr]. fold (nodes_list leaves).
    split; [now rewrite Ht|]. split; [constructor; [reflexivity | assumption]|].
    split; [now rewrite Hvs|]. split; [|split; [lia|]].
    + intros a Hin. apply elem_of_union in Hin as [Hin|Hin].
      * cbn [nodes string_leaf] in Hin. assert (a = next h) as -> by set_solver. lia.
      * apply Ha in Hin. lia.
    + rewrite Hlive. cbn [nodes string_leaf]. set_solver.
Qed.



Lemma bind_assoc {A B C : Type} (m : M A) (f : A -> M B) (g : B -> M C) h :
  (x <- (y <- m ;; f y) ;; g x) h = (y <- m ;; x <- f y ;; g x) h.
Proof. unfold bind. destruct (m h) as [y h1]. reflexivity. Qed.

Lemma WithArray_strings_form this key strs h :
  JsonObject.WithArray_strings this key strs h =
  (root <- JsonObject.object_root this ;;
   item <- (arrayValue <- cJSON_CreateArray ;; JsonObject.add_strings arrayValue strs) ;;
   root' <- AddOrReplace root key item ;;
   ret (JsonObject.set_m_value (Some root') this)) h.
Proof.
  unfold JsonObject.WithArray_strings, bind.
  destruct (JsonObject.object_root this h) as [root h0].
  destruct (cJSON_CreateArray h0) as [arr h1]. reflexivity.
Qed.

Lemma WithArray_form this key docs h :
  JsonObject.WithArray this key docs h =
  (root <- JsonObject.object_root this ;;
   item <- (arrayValue <- cJSON_CreateArray ;; JsonObject.add_duplicates arrayValue docs) ;;
   root' <- AddOrReplace root (c_str key) item ;;
   ret (JsonObject.set_m_value (Some root') this)) h.
Proof.
  unfold JsonObject.WithArray, bind.
  destruct (JsonObject.object_root this h) as [root h0].
  destruct (cJSON_CreateArray h0) as [arr h1]. reflexivity.
Qed.



(** ** Ownership under adoption and replacement of the root *)







(** ** Ownership when the root is replaced *)






(** ** What a keyed mutator does to the children of the root *)

Lemma tree_after_generic this key (make : M cJSON) h :
  exists root h0 item h1,
    JsonObject.object_root this h = (root, h0) /\ make h0 = (item, h1) /\
    (root <- JsonObject.object_root this ;;
     item <- make ;;
     root' <- AddOrReplace root key item ;;
     ret (JsonObject.set_m_value (Some root') this)) h =
    (JsonObject.set_m_value
       (Some (set_child (upsert key (set_string (Some key) item) (child root)) root)) this,
     mkHeap (next h1) (live h1 ∖ nodes_opt (List.find (named key) (child root)))).
Proof.
  unfold bind at 1.
  destruct (JsonObject.object_root this h) as [root h0] eqn:Eroot.
  unfold bind at 1. destruct (make h0) as [item h1] eqn:Eitem.
  exists root, h0, item, h1. split; [reflexivity|]. split; [exact Eitem|].
  unfold bind. rewrite AddOrReplace_eq. reflexivity.
Qed.

Lemma put_under_generic this key (make : M cJSON) h :
  put_under key this
    (fst ((root <- JsonObject.object_root this ;;
           item <- make ;;
           root' <- AddOrReplace root key item ;;
           ret (JsonObject.set_m_value (Some root') this)) h)).
Proof.
  destruct (tree_after_generic this key make h)
    as (root & h0 & item & h1 & Eroot & _ & ->).
  pose proof (object_root_frame _ _ _ _ Eroot) as (Hch & _).
  apply object_root_spec in Eroot.
  cbn [fst JsonObject.m_value JsonObject.set_m_value].
  exists item. unfold children at 1, View, JsonView.of_JsonObject.
  cbn [JsonView.m_value JsonObject.m_value JsonObject.set_m_value child set_child
       is_nonnull].
  rewrite Hch. split; [reflexivity|]. split; [reflexivity|].
  unfold cJSON_IsObject, has_type, object_or_null. cbn [type set_child].
  destruct (JsonObject.m_value this) as [r|]; destruct Eroot as [-> _]; reflexivity.
Qed.

Lemma WithObject_move_form this key o h :
  fst (fst (JsonObject.WithObject_move this key o h)) =
  fst ((root <- JsonObject.object_root this ;;
        item <- match JsonObject.m_value o with
                | None => cJSON_CreateObject
                | Some v => ret v
                end ;;
        root' <- AddOrReplace root key item ;;
        ret (JsonObject.set_m_value (Some root') this)) h).
Proof.
  unfold JsonObject.WithObject_move, bind.
  destruct (JsonObject.object_root this h) as [root h0].
  destruct (match JsonObject.m_value o with
            | Some v => ret v
            | None => cJSON_CreateObject
            end h0) as [item h1].
  destruct (AddOrReplace root key item h1). reflexivity.
Qed.

Lemma WithArray_move_form this key docs h :
  fst (fst (JsonObject.WithArray_move this key docs h)) =
  fst ((root <- JsonObject.object_root this ;;
        item <- (arrayValue <- cJSON_CreateArray ;;
                 ret (fst (JsonObject.adopt_all arrayValue docs))) ;;
        root' <- AddOrReplace root (c_str key) item ;;
        ret (JsonObject.set_m_value (Some root') this)) h).
Proof.
  unfold JsonObject.WithArray_move, bind.
  destruct (JsonObject.object_root this h) as [root h0].
  destruct (cJSON_CreateArray h0) as [arr h1]. unfold ret.
  destruct (JsonObject.adopt_all arr docs) as [arr' docs'].
  cbn [fst]. destruct (AddOrReplace root (c_str key) arr' h1). reflexivity.
Qed.

(** Every keyed mutator puts an item under its key and does nothing else
    to the children of the root. *)
Lemma keyed_put_under this key h v b x z o strs (key' : String) docs :
  Forall (put_under key this) (keyed this key h v b x z o strs) /\
  Forall (put_under (c_str key') this) (keyed_array this key' h docs).
Proof.
  split; unfold keyed, keyed_array; repeat apply Forall_cons_2; try apply Forall_nil_2.
  - apply put_under_generic.
  - apply put_under_generic.
  - apply put_under_generic.
  - apply put_under_generic.
  - apply put_under_generic.
  - apply put_under_generic.
  - rewrite WithObject_move_form. apply put_under_generic.
  - rewrite WithArray_strings_form. apply put_under_generic.
  - rewrite WithArray_form. apply put_under_generic.
  - rewrite WithArray_move_form. apply put_under_generic.
Qed.

Lemma generic_lookup this key (make : M cJSON) h :
  exists root h0 item h1,
    JsonObject.object_root this h = (root, h0) /\ make h0 = (item, h1) /\
    let d := fst ((root <- JsonObject.object_root this ;;
                   item <- make ;;
                   root' <- AddOrReplace root key item ;;
                   ret (JsonObject.set_m_value (Some root') this)) h) in
    cJSON_GetObjectItemCaseSensitive (JsonObject.m_value d) key =
      Some (set_string (Some key) item) /\
    is_nonnull (JsonObject.m_value d) = true /\
    cJSON_IsObject (JsonObject.m_value d) = object_or_null (JsonObject.m_value this).
Proof.
  destruct (tree_after_generic this key make h)
    as (root & h0 & item & h1 & Eroot & Eitem & ->).
  exists root, h0, item, h1. split; [exact Eroot|]. split; [exact Eitem|].
  apply object_root_spec in Eroot.
  cbn [fst JsonObject.m_value JsonObject.set_m_value cJSON_GetObjectItemCaseSensitive
       child set_child is_nonnull].
  rewrite find_upsert by apply named_set_string.
  split; [reflexivity|]. split; [reflexivity|].
  unfold cJSON_IsObject, has_type, object_or_null. cbn [type set_child].
  destruct (JsonObject.m_value this) as [r|]; destruct Eroot as [-> _]; reflexivity.
Qed.

(** X5. What a leaf mutator puts under a key is what the accessors of a
    View of the Document read back under that key: the text (as a C
    string) for [WithString], the number for [WithDouble], the converted
    number for [WithInteger] and [WithInt64], the boolean for
    [WithBool]. *)
Theorem With_then_Get
    (this : JsonObject.t) (key : string) (h : Heap)
    (v : String) (b : bool) (x : double) (z : Z) :
  JsonView.GetString (View (fst (JsonObject.WithString this key v h))) key =
    Returns (c_str v) /\
  JsonView.GetDouble (View (fst (JsonObject.WithDouble this key x h))) key =
    Returns x /\
  JsonView.GetDouble (View (fst (JsonObject.WithInteger this key z h))) key =
    Returns (static_cast_double z) /\
  JsonView.GetDouble (View (fst (JsonObject.WithInt64 this key z h))) key =
    Returns (static_cast_double z) /\
  (exists r,
     JsonView.GetJsonObject (View (fst (JsonObject.WithBool this key b h))) key =
       Returns r /\
     JsonView.AsBool r = Returns b).
Proof.
  assert (G : forall ty vs vd,
    let d := fst ((root <- JsonObject.object_root this ;;
                   item <- new_item ty vs vd ;;
                   root' <- AddOrReplace root key item ;;
                   ret (JsonObject.set_m_value (Some root') this)) h) in
    exists a,
      cJSON_GetObjectItemCaseSensitive (JsonObject.m_value d) key =
        Some (mk_cJSON a ty vs vd (Some key) []) /\
      is_nonnull (JsonObject.m_value d) = true).
  { intros ty vs vd d.
    destruct (generic_lookup this key (new_item ty vs vd) h)
      as (root & h0 & item & h1 & _ & Eitem & Hlook & Hnn & _).
    unfold new_item, bind, malloc, ret in Eitem. injection Eitem as <- _.
    exists (next h0). split; [exact Hlook | exact Hnn]. }
  unfold JsonView.GetString, JsonView.GetDouble, JsonView.GetJsonObject, View,
    JsonView.of_JsonObject. cbn [JsonView.m_value].
  unfold JsonObject.WithInteger, JsonObject.WithInt64.
  split; [|split; [|split; [|split]]].
  - destruct (G cJSON_String (Some (c_str v)) double_zero) as (a & Hl & Hnn).
    unfold JsonObject.WithString, cJSON_CreateString. rewrite Hnn, Hl. reflexivity.
  - destruct (G cJSON_Number None x) as (a & Hl & Hnn).
    unfold JsonObject.WithDouble, cJSON_CreateNumber. rewrite Hnn, Hl. reflexivity.
  - destruct (G cJSON_Number None (static_cast_double z)) as (a & Hl & Hnn).
    unfold JsonObject.WithDouble, cJSON_CreateNumber. rewrite Hnn, Hl. reflexivity.
  - destruct (G cJSON_Number None (static_cast_double z)) as (a & Hl & Hnn).
    unfold JsonObject.WithDouble, cJSON_CreateNumber. rewrite Hnn, Hl. reflexivity.
  - destruct (G (if b then cJSON_True else cJSON_False) None double_zero)
      as (a & Hl & Hnn).
    unfold JsonObject.WithBool, cJSON_CreateBool. rewrite Hnn, Hl.
    eexists. split; [reflexivity|]. now destruct b.
Qed.

Lemma lookup_children (d : JsonObject.t) key :
  cJSON_GetObjectItemCaseSensitive (JsonObject.m_value d) key =
  List.find (named key) (children (View d)).
Proof.
  unfold children, View, JsonView.of_JsonObject. cbn [JsonView.m_value].
  now destruct (JsonObject.m_value d).
Qed.

Lemma named_two key key' c : named key c = true -> named key' c = true -> key = key'.
Proof. rewrite !named_iff. congruence. Qed.

Lemma find_upsert_other key key' item l :
  key <> key' -> named key item = true ->
  List.find (named key') (upsert key item l) = List.find (named key') l.
Proof.
  intros Hne Hn.
  assert (Hi : named key' item = false).
  { destruct (named key' item) eqn:E; [|reflexivity].
    exfalso. apply Hne. now apply (named_two _ _ item). }
  induction l as [|c l IH]; cbn [upsert List.find].
  - now rewrite Hi.
  - destruct (named key c) eqn:E; cbn [List.find].
    + rewrite Hi. destruct (named key' c) eqn:E'; [|reflexivity].
      exfalso. apply Hne. now apply (named_two _ _ c).
    + now rewrite IH.
Qed.

Lemma count_named_upsert_other key key' item l :
  key <> key' -> named key item = true ->
  count_named key' (upsert key item l) = count_named key' l.
Proof.
  intros Hne Hn. unfold count_named.
  assert (Hi : named key' item = false).
  { destruct (named key' item) eqn:E; [|reflexivity].
    exfalso. apply Hne. now apply (named_two _ _ item). }
  induction l as [|c l IH]; cbn [upsert List.filter length].
  - now rewrite Hi.
  - destruct (named key c) eqn:E; cbn [List.filter].
    + rewrite Hi. destruct (named key' c) eqn:E'; [|reflexivity].
      exfalso. apply Hne. now apply (named_two _ _ c).
    + destruct (named key' c); cbn [length]; now rewrite IH.
Qed.

Lemma put_under_frame key key' this d :
  put_under key this d -> key <> key' ->
  cJSON_GetObjectItemCaseSensitive (JsonObject.m_value d) key' =
    cJSON_GetObjectItemCaseSensitive (JsonObject.m_value this) key' /\
  JsonView.KeyExists (View d) key' = JsonView.KeyExists (View this) key' /\
  JsonView.ValueExists (View d) key' = JsonView.ValueExists (View this) key'.
Proof.
  intros (item & Hch & Hnn & Hobj) Hne.
  assert (Hl : cJSON_GetObjectItemCaseSensitive (JsonObject.m_value d) key' =
               cJSON_GetObjectItemCaseSensitive (JsonObject.m_value this) key').
  { rewrite !lookup_children, Hch. apply find_upsert_other; [assumption|].
    apply named_set_string. }
  split; [exact Hl|].
  unfold JsonView.KeyExists, JsonView.ValueExists, View, JsonView.of_JsonObject.
  cbn [JsonView.m_value]. rewrite Hl, Hobj. unfold object_or_null.
  destruct (JsonObject.m_value this) as [r|]; cbn [is_nonnull negb orb];
    split; reflexivity.
Qed.

(** X6. A keyed mutator leaves every other key as it was: looking up a
    different name in the Document finds the same child afterwards, and
    [KeyExists] and [ValueExists] answer the same for it. *)
Theorem keyed_mutators_leave_other_keys
    (this : JsonObject.t) (key : string) (key' : String) (other : string) (h : Heap)
    (v : String) (b : bool) (x : double) (z : Z) (o : JsonObject.t)
    (strs : list String) (docs : list JsonObject.t) :
  key <> other -> c_str key' <> other ->
  Forall (fun d =>
            cJSON_GetObjectItemCaseSensitive (JsonObject.m_value d) other =
              cJSON_GetObjectItemCaseSensitive (JsonObject.m_value this) other /\
            JsonView.KeyExists (View d) other = JsonView.KeyExists (View this) other /\
            JsonView.ValueExists (View d) other = JsonView.ValueExists (View this) other)
         (keyed this key h v b x z o strs ++ keyed_array this key' h docs).
Proof.
  intros Hne Hne'.
  destruct (keyed_put_under this key h v b x z o strs key' docs) as [H1 H2].
  apply Forall_app. split.
  - eapply Forall_impl; [exact H1|]. intros d Hd. now apply (put_under_frame key).
  - eapply Forall_impl; [exact H2|]. intros d Hd. now apply (put_under_frame (c_str key')).
Qed.

Lemma keyed_mutators_leave_other_keys_witness :
  let this := fst (JsonObject.WithString (JsonObject.empty DefaultAllocator)
                     "a" "1" heap0) in
  let h := snd (JsonObject.WithString (JsonObject.empty DefaultAllocator)
                  "a" "1" heap0) in
  "b"%string <> "a"%string /\
  Forall (fun d =>
            cJSON_GetObjectItemCaseSensitive (JsonObject.m_value d) "a" =
              cJSON_GetObjectItemCaseSensitive (JsonObject.m_value this) "a" /\
            JsonView.KeyExists (View d) "a" = JsonView.KeyExists (View this) "a" /\
            JsonView.ValueExists (View d) "a" = JsonView.ValueExists (View this) "a")
         (keyed this "b" h "2" true double_zero 0 this [] ++
          keyed_array this "c" h []).
Proof.
  intros this h. split; [discriminate|].
  apply keyed_mutators_leave_other_keys; discriminate.
Defined.

Lemma put_under_unique key this d :
  put_under key this d ->
  unique_names (children (View this)) -> unique_names (children (View d)).
Proof.
  intros (item & Hch & _) Hu k. rewrite Hch.
  destruct (String.eqb_spec key k) as [<-|Hne].
  - rewrite count_named_upsert by apply named_set_string.
    specialize (Hu key). lia.
  - rewrite count_named_upsert_other; [apply Hu | assumption | apply named_set_string].
Qed.

(** X7. The keyed mutators keep the names of the children unique: no
    sequence of them makes two children of one name. *)
Theorem keyed_mutators_keep_names_unique
    (this : JsonObject.t) (key : string) (key' : String) (h : Heap)
    (v : String) (b : bool) (x : double) (z : Z) (o : JsonObject.t)
    (strs : list String) (docs : list JsonObject.t) :
  unique_names (children (View this)) ->
  Forall (fun d => unique_names (children (View d)))
         (keyed this key h v b x z o strs ++ keyed_array this key' h docs).
Proof.
  intros Hu.
  destruct (keyed_put_under this key h v b x z o strs key' docs) as [H1 H2].
  apply Forall_app. split.
  - eapply Forall_impl; [exact H1|]. intros d Hd. now apply (put_under_unique key this).
  - eapply Forall_impl; [exact H2|]. intros d Hd.
    now apply (put_under_unique (c_str key') this).
Qed.

Lemma keyed_mutators_keep_names_unique_witness :
  let this := JsonObject.empty DefaultAllocator in
  unique_names (children (View this)) /\
  Forall (fun d => unique_names (children (View d)))
         (keyed this "k" heap0 "v" true double_zero 0 this [] ++
          keyed_array this "k" heap0 []).
Proof.
  intros this.
  assert (Hu : unique_names (children (View this))) by (intros k; cbn; lia).
  split; [exact Hu|]. now apply keyed_mutators_keep_names_unique.
Defined.

Lemma length_upsert key item l :
  length (upsert key item l) =
  if is_nonnull (List.find (named key) l) then length l else S (length l).
Proof.
  induction l as [|c l IH]; cbn [upsert List.find length is_nonnull]; [reflexivity|].
  destruct (named key c); cbn [length is_nonnull]; [reflexivity|].
  rewrite IH. now destruct (List.find (named key) l).
Qed.

Lemma lookup_upsert_other key item l j :
  j <> place key l -> upsert key item l !! j = l !! j.
Proof.
  unfold place. revert j.
  induction l as [|c l IH]; intros j; cbn [upsert index_named length].
  - intros Hj. destruct j; [contradiction | reflexivity].
  - destruct (named key c).
    + intros Hj. destruct j; [contradiction | reflexivity].
    + intros Hj. destruct j as [|j]; [reflexivity|]. cbn. apply IH.
      destruct (index_named key l); intros ->; apply Hj; reflexivity.
Qed.

(** X8. A keyed mutator keeps the siblings in their places: the number
    of children stays when the key was there and grows by one when it
    was not, and every child at another position than the key's stays
    where it was. *)
Theorem keyed_mutators_keep_order
    (this : JsonObject.t) (key : string) (key' : String) (h : Heap)
    (v : String) (b : bool) (x : double) (z : Z) (o : JsonObject.t)
    (strs : list String) (docs : list JsonObject.t) :
  let stays (k : string) (d : JsonObject.t) :=
    length (children (View d)) =
      (if is_nonnull (cJSON_GetObjectItemCaseSensitive (JsonObject.m_value this) k)
       then length (children (View this))
       else S (length (children (View this)))) /\
    (exists c, children (View d) !! place k (children (View this)) = Some c /\
               string_ c = Some k) /\
    forall j, j <> place k (children (View this)) ->
              children (View d) !! j = children (View this) !! j in
  Forall (stays key) (keyed this key h v b x z o strs) /\
  Forall (stays (c_str key')) (keyed_array this key' h docs).
Proof.
  intros stays.
  assert (G : forall k d, put_under k this d -> stays k d).
  { intros k d (item & Hch & _). unfold stays. rewrite Hch, lookup_children.
    split; [apply length_upsert|]. split.
    - eexists. split; [apply lookup_upsert | reflexivity].
    - intros j Hj. now apply lookup_upsert_other. }
  destruct (keyed_put_under this key h v b x z o strs key' docs) as [H1 H2].
  split; (eapply Forall_impl; [eassumption|]); intros d Hd; now apply G.
Qed.

Lemma tree_of_upsert key item item' l :
  tree_of item = tree_of item' -> string_ item = string_ item' ->
  map (fun c => (string_ c, tree_of c)) (upsert key item l) =
    map (fun c => (string_ c, tree_of c)) (upsert key item' l) /\
  map tree_of (upsert key item l) = map tree_of (upsert key item' l).
Proof.
  intros Ht Hs. induction l as [|c l [IH1 IH2]]; cbn [upsert map].
  - now rewrite Ht, Hs.
  - destruct (named key c); cbn [map]; [now rewrite Ht, Hs | now rewrite IH1, IH2].
Qed.

Lemma tree_of_set_child ch ch' root :
  map (fun c => (string_ c, tree_of c)) ch = map (fun c => (string_ c, tree_of c)) ch' ->
  map tree_of ch = map tree_of ch' ->
  tree_of (set_child ch root) = tree_of (set_child ch' root).
Proof.
  intros H1 H2. destruct root as [a ty vs vd nm c]. unfold set_child.
  cbn [self type valuestring valuedouble string_]. rewrite !tree_of_eq.
  destruct ty; try reflexivity; now f_equal.
Qed.

Lemma tree_of_set_string nm item : tree_of (set_string nm item) = tree_of item.
Proof. now destruct item. Qed.


(** The tree a leaf mutator leaves does not depend on an earlier leaf
    mutator on the same key. *)
Lemma leaf_overwrites this key h h' ty vs vd ty' vs' vd' :
  let first := (root <- JsonObject.object_root this ;;
                item <- new_item ty vs vd ;;
                root' <- AddOrReplace root key item ;;
                ret (JsonObject.set_m_value (Some root') this)) h in
  let second (d : JsonObject.t) (h : Heap) :=
    (root <- JsonObject.object_root d ;;
     item <- new_item ty' vs' vd' ;;
     root' <- AddOrReplace root key item ;;
     ret (JsonObject.set_m_value (Some root') d)) h in
  tree_of_opt (JsonObject.m_value (fst (second (fst first) (snd first)))) =
  tree_of_opt (JsonObject.m_value (fst (second this h'))).
Proof.
  intros first second. subst first second. cbn beta.
  destruct (tree_after_generic this key (new_item ty vs vd) h)
    as (root & h0 & item & h1 & Eroot & Eitem & ->).
  cbn [fst snd].
  match goal with
  | |- context [bind (JsonObject.object_root ?d) _ ?hh] =>
      destruct (tree_after_generic d key (new_item ty' vs' vd') hh)
        as (root2 & h2 & item2 & h3 & Eroot2 & Eitem2 & ->)
  end.
  destruct (tree_after_generic this key (new_item ty' vs' vd') h')
    as (root3 & h4 & item3 & h5 & Eroot3 & Eitem3 & ->).
  cbn [fst JsonObject.m_value JsonObject.set_m_value tree_of_opt]. f_equal.
  unfold JsonObject.object_root in Eroot2.
  cbn [JsonObject.m_value JsonObject.set_m_value] in Eroot2.
  unfold ret in Eroot2. injection Eroot2 as <- <-.
  cbn [child set_child]. rewrite upsert_upsert by apply named_set_string.
  unfold new_item, bind, malloc, ret in Eitem, Eitem2, Eitem3.
  injection Eitem2 as <- _. injection Eitem3 as <- _.
  apply object_root_spec in Eroot. apply object_root_spec in Eroot3.
  destruct (tree_of_upsert key
              (set_string (Some key) (mk_cJSON (next h1) ty' vs' vd' None []))
              (set_string (Some key) (mk_cJSON (next h4) ty' vs' vd' None []))
              (child root)) as [E1 E2]; [reflexivity | reflexivity |].
  destruct (JsonObject.m_value this) as [r|].
  - destruct Eroot as [-> _], Eroot3 as [-> _].
    destruct r as [a t0 s0 d0 n0 c0]. unfold set_child.
    cbn [self type valuestring valuedouble string_ child] in *.
    rewrite !tree_of_eq. destruct t0; try reflexivity; now f_equal.
  - destruct Eroot as [-> _], Eroot3 as [-> _].
    unfold set_child. cbn [self type valuestring valuedouble string_ child] in *.
    rewrite !tree_of_eq. now f_equal.
Qed.

(** X9. The last write wins: after a leaf mutator on a key, a second
    leaf mutator on the same key leaves the tree it would have left
    without the first. *)
Theorem last_write_wins
    (this : JsonObject.t) (key : string) (h h' : Heap)
    (v v2 : String) (b b2 : bool) (x x2 : double) :
  Forall (fun first : JsonObject.t * Heap =>
            let tree (r : JsonObject.t * Heap) :=
              tree_of_opt (JsonObject.m_value (fst r)) in
            tree (JsonObject.WithString (fst first) key v2 (snd first)) =
              tree (JsonObject.WithString this key v2 h') /\
            tree (JsonObject.WithBool (fst first) key b2 (snd first)) =
              tree (JsonObject.WithBool this key b2 h') /\
            tree (JsonObject.WithDouble (fst first) key x2 (snd first)) =
              tree (JsonObject.WithDouble this key x2 h'))
         [ JsonObject.WithString this key v h;
           JsonObject.WithBool this key b h;
           JsonObject.WithDouble this key x h ].
Proof.
  repeat apply Forall_cons_2; try apply Forall_nil_2; cbn zeta;
    (split; [|split]); apply leaf_overwrites.
Qed.

Lemma generic_exists this key (make : M cJSON) h :
  object_or_null (JsonObject.m_value this) = true ->
  let d := fst ((root <- JsonObject.object_root this ;;
                 item <- make ;;
                 root' <- AddOrReplace root key item ;;
                 ret (JsonObject.set_m_value (Some root') this)) h) in
  exists h0 item h1,
    make h0 = (item, h1) /\
    JsonView.KeyExists (View d) key = true /\
    JsonView.ValueExists (View d) key = negb (cJSON_type_eqb (type item) cJSON_NULL).
Proof.
  intros Hobj d. subst d.
  destruct (generic_lookup this key make h)
    as (root & h0 & item & h1 & _ & Eitem & Hlook & _ & Hty).
  exists h0, item, h1. split; [exact Eitem|].
  unfold JsonView.KeyExists, JsonView.ValueExists, View, JsonView.of_JsonObject.
  cbn [JsonView.m_value]. cbn zeta in Hlook, Hty. rewrite Hty, Hobj, Hlook.
  cbn [negb is_nonnull orb]. split; [reflexivity|].
  unfold cJSON_IsNull, has_type. now destruct item.
Qed.

(** X10. On a Document whose root is null or an object, the key a
    mutator was given exists afterwards, and its value exists unless what
    was put there is JSON null, which only [WithObject] with a source
    whose root is a JSON null does. *)
Theorem keyed_mutators_make_key_exist
    (this : JsonObject.t) (key : string) (key' : String) (h : Heap)
    (v : String) (b : bool) (x : double) (z : Z) (o : JsonObject.t)
    (strs : list String) (docs : list JsonObject.t) :
  object_or_null (JsonObject.m_value this) = true ->
  Forall (fun d => JsonView.KeyExists (View d) key = true)
         (keyed this key h v b x z o strs) /\
  Forall (fun d => JsonView.KeyExists (View d) (c_str key') = true /\
                   JsonView.ValueExists (View d) (c_str key') = true)
         (keyed_array this key' h docs) /\
  Forall (fun d => JsonView.ValueExists (View d) key = true)
         [ fst (JsonObject.WithString this key v h);
           fst (JsonObject.WithBool this key b h);
           fst (JsonObject.WithDouble this key x h);
           fst (JsonObject.WithArray_strings this key strs h) ] /\
  Forall (fun d => JsonView.ValueExists (View d) key =
                   negb (cJSON_IsNull (JsonObject.m_value o)))
         [ fst (JsonObject.WithObject this key o h);
           fst (fst (JsonObject.WithObject_move this key o h)) ].
Proof.
  intros Hobj.
  assert (Hnew : forall k ty vs vd,
    let d := fst ((root <- JsonObject.object_root this ;;
                   item <- new_item ty vs vd ;;
                   root' <- AddOrReplace root k item ;;
                   ret (JsonObject.set_m_value (Some root') this)) h) in
    JsonView.KeyExists (View d) k = true /\
    JsonView.ValueExists (View d) k = negb (cJSON_type_eqb ty cJSON_NULL)).
  { intros k ty vs vd d.
    destruct (generic_exists this k (new_item ty vs vd) h Hobj)
      as (h0 & item & h1 & Eitem & HK & HV).
    unfold new_item, bind, malloc, ret in Eitem. injection Eitem as <- _.
    split; [exact HK | exact HV]. }
  assert (Harr : forall k (fill : cJSON -> M cJSON),
    (forall arr hh arr' hh', fill arr hh = (arr', hh') -> type arr' = type arr) ->
    let d := fst ((root <- JsonObject.object_root this ;;
                   item <- (arrayValue <- cJSON_CreateArray ;; fill arrayValue) ;;
                   root' <- AddOrReplace root k item ;;
                   ret (JsonObject.set_m_value (Some root') this)) h) in
    JsonView.KeyExists (View d) k = true /\ JsonView.ValueExists (View d) k = true).
  { intros k fill Hfill d.
    destruct (generic_exists this k (arrayValue <- cJSON_CreateArray ;; fill arrayValue)
                h Hobj) as (h0 & item & h1 & Eitem & HK & HV).
    unfold cJSON_CreateArray, new_item, bind at 1 in Eitem.
    unfold bind at 1, malloc, ret in Eitem. apply Hfill in Eitem.
    cbn [type] in Eitem. rewrite Eitem in HV. split; [exact HK | exact HV]. }
  assert (Hstr : forall arr hh arr' hh',
    JsonObject.add_strings arr strs hh = (arr', hh') -> type arr' = type arr).
  { intros arr hh arr' hh' E. apply add_strings_spec in E as (l & -> & _).
    reflexivity. }
  assert (Hdup : forall arr hh arr' hh',
    JsonObject.add_duplicates arr docs hh = (arr', hh') -> type arr' = type arr).
  { intros arr hh arr' hh' E. apply add_duplicates_spec in E as (l & -> & _).
    reflexivity. }
  assert (Hado : forall arr hh arr' hh',
    ret (fst (JsonObject.adopt_all arr docs)) hh = (arr', hh') -> type arr' = type arr).
  { intros arr hh arr' hh'. rewrite adopt_all_eq. unfold ret. cbn [fst].
    intros [= <- _]. reflexivity. }
  assert (Hobjc : forall make,
    (forall h0 item h1, make h0 = (item, h1) ->
       cJSON_type_eqb (type item) cJSON_NULL = cJSON_IsNull (JsonObject.m_value o)) ->
    let d := fst ((root <- JsonObject.object_root this ;;
                   item <- make ;;
                   root' <- AddOrReplace root key item ;;
                   ret (JsonObject.set_m_value (Some root') this)) h) in
    JsonView.KeyExists (View d) key = true /\
    JsonView.ValueExists (View d) key = negb (cJSON_IsNull (JsonObject.m_value o))).
  { intros make Hmake d.
    destruct (generic_exists this key make h Hobj) as (h0 & item & h1 & Eitem & HK & HV).
    apply Hmake in Eitem. rewrite Eitem in HV. split; [exact HK | exact HV]. }
  assert (Hcopy : forall h0 item h1,
    match JsonObject.m_value o with
    | Some s => duplicate s
    | None => cJSON_CreateObject
    end h0 = (item, h1) ->
    cJSON_type_eqb (type item) cJSON_NULL = cJSON_IsNull (JsonObject.m_value o)).
  { intros h0 item h1. unfold cJSON_IsNull, has_type.
    destruct (JsonObject.m_value o) as [s|].
    - intros E. apply duplicate_spec in E as (_ & _ & _ & _ & _ & ->). reflexivity.
    - unfold cJSON_CreateObject, new_item, bind, malloc, ret. intros [= <- _].
      reflexivity. }
  assert (Hmove : forall h0 item h1,
    match JsonObject.m_value o with
    | Some s => ret s
    | None => cJSON_CreateObject
    end h0 = (item, h1) ->
    cJSON_type_eqb (type item) cJSON_NULL = cJSON_IsNull (JsonObject.m_value o)).
  { intros h0 item h1. unfold cJSON_IsNull, has_type.
    destruct (JsonObject.m_value o) as [s|].
    - unfold ret. intros [= <- _]. reflexivity.
    - unfold cJSON_CreateObject, new_item, bind, malloc, ret. intros [= <- _].
      reflexivity. }
  split; [|split; [|split]].
  - destruct (keyed_put_under this key h v b x z o strs key' docs) as [H1 _].
    eapply Forall_impl; [exact H1|]. intros d (item & Hch & _ & Hty).
    unfold JsonView.KeyExists, View, JsonView.of_JsonObject. cbn [JsonView.m_value].
    rewrite Hty, Hobj. cbn [negb]. rewrite lookup_children.
    rewrite Hch, find_upsert by apply named_set_string. reflexivity.
  - unfold keyed_array. repeat apply Forall_cons_2; try apply Forall_nil_2.
    + rewrite WithArray_form. apply (Harr _ (fun a => JsonObject.add_duplicates a docs) Hdup).
    + rewrite WithArray_move_form.
      apply (Harr _ (fun a => ret (fst (JsonObject.adopt_all a docs))) Hado).
  - repeat apply Forall_cons_2; try apply Forall_nil_2.
    + apply (Hnew key cJSON_String).
    + destruct (Hnew key (if b then cJSON_True else cJSON_False) None double_zero)
        as [_ HV]. unfold JsonObject.WithBool, cJSON_CreateBool. rewrite HV.
      now destruct b.
    + apply (Hnew key cJSON_Number).
    + rewrite WithArray_strings_form.
      apply (Harr _ (fun a => JsonObject.add_strings a strs) Hstr).
  - repeat apply Forall_cons_2; try apply Forall_nil_2.
    + apply (Hobjc _ Hcopy).
    + rewrite WithObject_move_form. apply (Hobjc _ Hmove).
Qed.

Lemma keyed_mutators_make_key_exist_witness :
  let this := JsonObject.empty DefaultAllocator in
  let '(n, h) := JsonObject.AsNull this heap0 in
  object_or_null (JsonObject.m_value this) = true /\
  JsonView.ValueExists (View (fst (JsonObject.WithObject this "a" n h))) "a" = false /\
  JsonView.KeyExists (View (fst (JsonObject.WithObject this "a" n h))) "a" = true.
Proof.
  cbv zeta. rewrite AsNull_eq. split; [reflexivity|].
  match goal with
  | |- context [JsonObject.WithObject ?this "a" ?n ?h] =>
      destruct (keyed_mutators_make_key_exist this "a" "" h "" true double_zero 0
                  n [] [] eq_refl) as (HK & _ & _ & HV)
  end.
  split.
  - apply Forall_cons in HV as [HV _]. rewrite HV. reflexivity.
  - unfold keyed in HK. do 5 apply Forall_cons in HK as [_ HK].
    apply Forall_cons in HK as [HK _]. exact HK.
Defined.

(** ** Reading back through a View *)

(** X11. What a root-replacing mutator installs is what the matching
    accessor of a View of the Document returns, and the View is of that
    kind and of no other. *)
Theorem As_then_As
    (this : JsonObject.t) (h : Heap) (v : String) (b : bool) (x : double) (z : Z) :
  let kinds (d : JsonObject.t) :=
    (JsonView.IsString (View d), JsonView.IsBool (View d),
     cJSON_IsNumber (JsonObject.m_value d), JsonView.IsNull (View d),
     JsonView.IsObject (View d), JsonView.IsListType (View d)) in
  (let d := fst (JsonObject.AsString this v h) in
   JsonView.AsString (View d) = Returns (c_str v) /\
   kinds d = (true, false, false, false, false, false)) /\
  (let d := fst (JsonObject.AsBool this b h) in
   JsonView.AsBool (View d) = Returns b /\
   kinds d = (false, true, false, false, false, false)) /\
  (let d := fst (JsonObject.AsDouble this x h) in
   JsonView.AsDouble (View d) = Returns x /\
   kinds d = (false, false, true, false, false, false)) /\
  (let d := fst (JsonObject.AsInteger this z h) in
   JsonView.AsDouble (View d) = Returns (static_cast_double z) /\
   kinds d = (false, false, true, false, false, false)) /\
  (let d := fst (JsonObject.AsInt64 this z h) in
   JsonView.AsDouble (View d) = Returns (static_cast_double z) /\
   kinds d = (false, false, true, false, false, false)) /\
  (let d := fst (JsonObject.AsNull this h) in
   kinds d = (false, false, false, true, false, false)).
Proof.
  intros kinds. subst kinds. cbn beta zeta.
  unfold JsonObject.AsInt64, JsonObject.AsString, JsonObject.AsBool,
    JsonObject.AsInteger, JsonObject.AsDouble, cJSON_CreateString,
    cJSON_CreateBool, cJSON_CreateNumber.
  rewrite !destroy_then_create, AsNull_eq. cbn [fst].
  repeat split; try reflexivity; now destruct b.
Qed.

Lemma fill_eq (u : JsonView.t) l :
  forall pre,
    JsonView.fill (length pre) l (pre ++ replicate (length l) u) =
    pre ++ map (fun e => JsonView.assign_cJSON u (Some e)) l.
Proof.
  induction l as [|e l IH]; intros pre; cbn [JsonView.fill length replicate map].
  - reflexivity.
  - rewrite length_app. cbn [length]. rewrite length_replicate.
    destruct (Nat.ltb_spec (length pre) (length pre + S (length l))) as [_|Hge]; [|lia].
    replace (alter (fun v => JsonView.assign_cJSON v (Some e)) (length pre)
               (pre ++ u :: replicate (length l) u))
      with ((pre ++ [JsonView.assign_cJSON u (Some e)]) ++ replicate (length l) u).
    + specialize (IH (pre ++ [JsonView.assign_cJSON u (Some e)])).
      rewrite length_app in IH. cbn [length] in IH.
      replace (length pre + 1)%nat with (S (length pre)) in IH by lia.
      rewrite IH, <- app_assoc. reflexivity.
    + rewrite <- app_assoc. cbn [app].
      rewrite (alter_app_r_alt _ pre) by lia.
      replace (length pre - length pre)%nat with 0%nat by lia. reflexivity.
Qed.

Lemma fill_new_vector l :
  JsonView.fill 0 l (JsonView.new_vector (length l)) =
  map (fun e => JsonView.of_cJSON (Some e) DefaultAllocator) l.
Proof. apply (fill_eq (JsonView.unbound DefaultAllocator) l []). Qed.

(** The loop of the array accessors is a map over the elements. *)
Lemma AsArray_eq (v : JsonView.t) :
  JsonView.AsArray v =
    (if JsonView.IsListType v
     then Returns (map (fun e => JsonView.of_cJSON (Some e) DefaultAllocator)
                       (children v))
     else AssertionFailure).
Proof.
  unfold JsonView.AsArray, JsonView.IsListType, AWS_ASSERT, children,
    cJSON_GetArraySize.
  destruct (JsonView.m_value v) as [a|]; [|reflexivity].
  destruct (cJSON_IsArray (Some a)); [|reflexivity].
  now rewrite fill_new_vector.
Qed.

Lemma GetArray_found (v : JsonView.t) (key : string) n a :
  JsonView.m_value v = Some n ->
  cJSON_GetObjectItemCaseSensitive (Some n) key = Some a ->
  type a = cJSON_Array ->
  JsonView.GetArray v key =
    Returns (map (fun e => JsonView.of_cJSON (Some e) DefaultAllocator) (child a)).
Proof.
  intros Hv Hl Hty. unfold JsonView.GetArray, AWS_ASSERT, cJSON_GetArraySize.
  rewrite Hv, Hl. unfold cJSON_IsArray, has_type. rewrite Hty.
  cbn [is_nonnull cJSON_type_eqb]. now rewrite fill_new_vector.
Qed.

(** X12. The array accessors of a View return one View per element, in
    the order of the elements, each bound to its element; [AsArray]
    aborts exactly when the node is not an array, [GetArray] exactly when
    the View is unbound or the key does not name an array. *)
Theorem array_accessors (v : JsonView.t) (key : string) :
  JsonView.AsArray v =
    (if JsonView.IsListType v
     then Returns (map (fun e => JsonView.of_cJSON (Some e) DefaultAllocator)
                       (children v))
     else AssertionFailure) /\
  JsonView.GetArray v key =
    (match JsonView.m_value v, cJSON_GetObjectItemCaseSensitive (JsonView.m_value v) key with
     | Some _, Some a =>
         if cJSON_IsArray (Some a)
         then Returns (map (fun e => JsonView.of_cJSON (Some e) DefaultAllocator)
                           (child a))
         else AssertionFailure
     | _, _ => AssertionFailure
     end).
Proof.
  unfold JsonView.AsArray, JsonView.GetArray, JsonView.IsListType, AWS_ASSERT,
    children, cJSON_GetArraySize.
  split.
  - destruct (JsonView.m_value v) as [a|]; [|reflexivity].
    destruct (cJSON_IsArray (Some a)); [|reflexivity].
    now rewrite fill_new_vector.
  - destruct (JsonView.m_value v) as [n|]; [|reflexivity]. cbn [is_nonnull].
    destruct (cJSON_GetObjectItemCaseSensitive (Some n) key) as [a|]; [|reflexivity].
    destruct (cJSON_IsArray (Some a)); [|reflexivity].
    now rewrite fill_new_vector.
Qed.

(** X13. The texts given to [WithArray] are read back, in order and as
    C strings, by [GetArray] on the key and [AsString] on each element. *)
Theorem WithArray_strings_then_GetArray
    (this : JsonObject.t) (key : string) (strs : list String) (h : Heap) :
  exists views,
    JsonView.GetArray (View (fst (JsonObject.WithArray_strings this key strs h))) key =
      Returns views /\
    map JsonView.AsString views = map (fun s => Returns (c_str s)) strs.
Proof.
  rewrite WithArray_strings_form.
  destruct (generic_lookup this key
              (arrayValue <- cJSON_CreateArray ;; JsonObject.add_strings arrayValue strs) h)
    as (root & h0 & item & h1 & _ & Eitem & Hlook & Hnn & _).
  cbn zeta in Hlook, Hnn.
  unfold cJSON_CreateArray, new_item, bind at 1 in Eitem.
  unfold bind at 1, malloc, ret in Eitem.
  apply add_strings_spec in Eitem as (leaves & -> & _ & Hty & Hvs & _).
  cbn [child app] in *.
  destruct (JsonObject.m_value _) as [n|] eqn:En; [|discriminate].
  eexists. split.
  - eapply GetArray_found; [exact En | exact Hlook | reflexivity].
  - cbn [child set_string set_child]. rewrite map_map. clear -Hty Hvs.
    revert strs Hvs.
    induction Hty as [|c leaves Hc _ IH]; intros [|s strs]; cbn [map];
      intros Hvs; try discriminate; [reflexivity|].
    injection Hvs as Hv Hvs. f_equal; [|now apply IH].
    unfold JsonView.AsString, cJSON_GetStringValue, cJSON_IsString, has_type,
      JsonView.of_cJSON. cbn [JsonView.m_value]. now rewrite Hc, Hv.
Qed.

(** ** All the children at once *)

Lemma emplace_all_lookup l :
  forall (m0 m : gmap string JsonView.t),
    JsonView.emplace_all l m0 = Some m ->
    forall key,
      m !! key =
      match m0 !! key with
      | Some x => Some x
      | None => (fun c => JsonView.of_cJSON (Some c) DefaultAllocator) <$>
                List.find (named key) l
      end.
Proof.
  induction l as [|c l IH]; intros m0 m; cbn [JsonView.emplace_all List.find].
  - intros [= <-] key. now destruct (m0 !! key).
  - destruct (string_ c) as [n|] eqn:En; [|discriminate].
    intros E key. rewrite (IH _ _ E key). unfold JsonView.emplace, named. rewrite En.
    destruct (String.eqb_spec key n) as [->|Hne].
    + destruct (m0 !! n) as [x|] eqn:E0; [now rewrite E0|].
      now rewrite lookup_insert_eq.
    + destruct (m0 !! n) as [x|] eqn:E0; [reflexivity|].
      rewrite lookup_insert_ne by congruence. reflexivity.
Qed.

Lemma emplace_all_total l :
  Forall (fun c => is_nonnull (string_ c) = true) l ->
  forall m0, exists m, JsonView.emplace_all l m0 = Some m.
Proof.
  induction 1 as [|c l Hc _ IH]; intros m0; cbn [JsonView.emplace_all]; [eauto|].
  destruct (string_ c); [apply IH | discriminate].
Qed.

(** X14. On a node whose children all carry a name, [GetAllObjects]
    returns a map that answers every key as [GetJsonObject] does: with
    the View of the first child of that name, and with nothing for a name
    no child carries. *)
Theorem GetAllObjects_agrees_with_lookup (v : JsonView.t) :
  Forall (fun c => is_nonnull (string_ c) = true) (children v) ->
  exists m,
    JsonView.GetAllObjects v = Some m /\
    forall key,
      m !! key =
      (fun c => JsonView.of_cJSON (Some c) DefaultAllocator) <$>
      cJSON_GetObjectItemCaseSensitive (JsonView.m_value v) key.
Proof.
  unfold JsonView.GetAllObjects, children, cJSON_GetObjectItemCaseSensitive.
  destruct (JsonView.m_value v) as [n|].
  - intros Hnamed. destruct (emplace_all_total _ Hnamed ∅) as [m Hm].
    exists m. split; [exact Hm|]. intros key.
    rewrite (emplace_all_lookup _ _ _ Hm key). now rewrite lookup_empty.
  - intros _. exists ∅. split; [reflexivity|]. intros key. apply lookup_empty.
Qed.

Lemma GetAllObjects_agrees_with_lookup_witness :
  let v := View (fst (JsonObject.WithString (JsonObject.empty DefaultAllocator)
                        "a" "1" heap0)) in
  Forall (fun c => is_nonnull (string_ c) = true) (children v) /\
  exists m,
    JsonView.GetAllObjects v = Some m /\
    forall key,
      m !! key =
      (fun c => JsonView.of_cJSON (Some c) DefaultAllocator) <$>
      cJSON_GetObjectItemCaseSensitive (JsonView.m_value v) key.
Proof.
  intros v.
  assert (H : Forall (fun c => is_nonnull (string_ c) = true) (children v))
    by (repeat constructor).
  split; [exact H|]. now apply GetAllObjects_agrees_with_lookup.
Defined.

(** ** Deep copies *)

(** X15. The copying constructors make a tree of the same shape out of
    nodes that did not exist before, and release nothing.  The copy
    constructor takes the flag and the message along; [Materialize] and
    [GetJsonObjectCopy] start from a successful, message-free Document,
    and [GetJsonObjectCopy] of a name no child carries is a Document
    without a tree. *)
Theorem deep_copies (d : JsonObject.t) (v : JsonView.t) (key : string) (h : Heap) :
  let deep (source : option cJSON) (r : JsonObject.t * Heap) :=
    tree_of_opt (JsonObject.m_value (fst r)) = tree_of_opt source /\
    (forall a, a ∈ nodes_opt (JsonObject.m_value (fst r)) -> (next h <= a)%N) /\
    (live h ⊆ live (snd r)) in
  let fresh_state (c : JsonObject.t) :=
    JsonObject.m_wasParseSuccessful c = true /\
    JsonObject.m_errorMessage c = EmptyString in
  (deep (JsonObject.m_value d) (JsonObject.copy d h) /\
   JsonObject.m_wasParseSuccessful (fst (JsonObject.copy d h)) =
     JsonObject.m_wasParseSuccessful d /\
   JsonObject.m_errorMessage (fst (JsonObject.copy d h)) =
     JsonObject.m_errorMessage d) /\
  (deep (JsonView.m_value v) (JsonView.Materialize v h) /\
   fresh_state (fst (JsonView.Materialize v h))) /\
  (match JsonView.m_value v with
   | None => JsonView.GetJsonObjectCopy v key = AssertionFailure
   | Some _ =>
       exists make,
         JsonView.GetJsonObjectCopy v key = Returns make /\
         deep (cJSON_GetObjectItemCaseSensitive (JsonView.m_value v) key) (make h) /\
         fresh_state (fst (make h))
   end).
Proof.
  intros deep fresh_state.
  assert (G : forall source a,
            deep source (JsonObject.of_cJSON source a h) /\
            fresh_state (fst (JsonObject.of_cJSON source a h))).
  { intros source a. unfold deep, fresh_state, JsonObject.of_cJSON, bind, ret.
    destruct (cJSON_Duplicate source h) as [c h'] eqn:E.
    apply cJSON_Duplicate_spec in E as (_ & Ha & Hl & Ht & _).
    cbn [fst snd JsonObject.m_value JsonObject.m_wasParseSuccessful
         JsonObject.m_errorMessage].
    repeat split; [exact Ht | | rewrite Hl; set_solver].
    intros x Hx. apply Ha in Hx. lia. }
  split; [|split].
  - unfold deep, JsonObject.copy, bind, ret.
    destruct (cJSON_Duplicate (JsonObject.m_value d) h) as [c h'] eqn:E.
    apply cJSON_Duplicate_spec in E as (_ & Ha & Hl & Ht & _).
    cbn [fst snd JsonObject.m_value JsonObject.m_wasParseSuccessful
         JsonObject.m_errorMessage].
    repeat split; [exact Ht | | rewrite Hl; set_solver].
    intros x Hx. apply Ha in Hx. lia.
  - apply G.
  - unfold JsonView.GetJsonObjectCopy, AWS_ASSERT.
    destruct (JsonView.m_value v) as [n|]; cbn [is_nonnull]; [|reflexivity].
    eexists. split; [reflexivity|]. apply G.
Qed.

(** ** When an accessor aborts *)

(** X16. The accessors of a View abort in exactly these cases: the keyed
    ones on an unbound View ([GetDouble] also on a missing key,
    [GetArray] also on a key that names no array), the typed ones on a
    node of another kind or on none; [AsString] and [GetAllObjects] have
    no check, nor has [GetString] for a missing key. *)
Theorem accessors_abort_exactly_when (v : JsonView.t) (key : string) :
  let item := cJSON_GetObjectItemCaseSensitive (JsonView.m_value v) key in
  (JsonView.GetString v key = AssertionFailure <-> JsonView.m_value v = None) /\
  (JsonView.GetJsonObject v key = AssertionFailure <-> JsonView.m_value v = None) /\
  (JsonView.GetJsonObjectCopy v key = AssertionFailure <-> JsonView.m_value v = None) /\
  (JsonView.GetDouble v key = AssertionFailure <->
   JsonView.m_value v = None \/ item = None) /\
  (JsonView.GetArray v key = AssertionFailure <->
   JsonView.m_value v = None \/ cJSON_IsArray item = false) /\
  (JsonView.AsBool v = AssertionFailure <-> JsonView.IsBool v = false) /\
  (JsonView.AsDouble v = AssertionFailure <-> cJSON_IsNumber (JsonView.m_value v) = false) /\
  (JsonView.AsObject v = AssertionFailure <-> JsonView.IsObject v = false) /\
  (JsonView.AsArray v = AssertionFailure <-> JsonView.IsListType v = false) /\
  JsonView.AsString v <> AssertionFailure.
Proof.
  intros item. subst item.
  unfold JsonView.GetString, JsonView.GetJsonObject, JsonView.GetJsonObjectCopy,
    JsonView.GetDouble, JsonView.GetArray, JsonView.AsBool, JsonView.AsDouble,
    JsonView.AsObject, JsonView.AsArray, JsonView.AsString, JsonView.IsBool,
    JsonView.IsObject, JsonView.IsListType, AWS_ASSERT.
  destruct (JsonView.m_value v) as [n|]; cbn [is_nonnull].
  - destruct (cJSON_GetObjectItemCaseSensitive (Some n) key) as [i|]; cbn [is_nonnull].
    + destruct (cJSON_IsArray (Some i)), (cJSON_IsBool (Some n)),
        (cJSON_IsNumber (Some n)), (cJSON_IsObject (Some n)), (cJSON_IsArray (Some n));
        repeat split; try discriminate; try tauto;
        try (intros [?|?]; discriminate).
    + destruct (cJSON_IsBool (Some n)), (cJSON_IsNumber (Some n)),
        (cJSON_IsObject (Some n)), (cJSON_IsArray (Some n));
        cbn; repeat split; try discriminate; try tauto;
        try (intros [?|?]; discriminate).
  - cbn. repeat split; try discriminate; tauto.
Qed.

(** ** Move assignment *)

(** X17. The move form of [AsObject] allocates and releases nothing: the
    receiver takes the source's root itself, flag and message, and the
    source is left holding the receiver's former tree.  Once the source
    is destroyed, the receiver owns exactly what the source owned, and
    the receiver's former tree has been given back. *)
Theorem AsObject_move_then_destroy
    (this o : JsonObject.t) (h : Heap) (F : gset N) :
  owns h (nodes_opt (JsonObject.m_value o) ∪ F) (JsonObject.m_value this) ->
  nodes_opt (JsonObject.m_value o) ## F ->
  separate (JsonObject.m_value o) ->
  exists d s,
    JsonObject.AsObject_move this (JsonObject.other_object o) = (d, Some s) /\
    JsonObject.m_value d = JsonObject.m_value o /\
    JsonObject.m_wasParseSuccessful d = JsonObject.m_wasParseSuccessful o /\
    JsonObject.m_errorMessage d = JsonObject.m_errorMessage o /\
    JsonObject.m_value s = JsonObject.m_value this /\
    JsonObject.m_errorMessage s = JsonObject.m_errorMessage this /\
    owns (snd (JsonObject.destructor s h)) F (JsonObject.m_value d).
Proof.
  intros (Hok & Hlive & HF & _) HoF Hsep.
  eexists _, _. split; [reflexivity|].
  cbn [JsonObject.m_value JsonObject.m_wasParseSuccessful JsonObject.m_errorMessage].
  repeat split; try reflexivity.
  - intros a Ha. cbn [snd JsonObject.destructor] in Ha.
    unfold JsonObject.destructor, JsonObject.Destroy, cJSON_Delete, free in Ha |- *.
    cbn [snd next live JsonObject.m_value] in Ha |- *.
    apply Hok. set_solver.
  - unfold JsonObject.destructor, JsonObject.Destroy, cJSON_Delete, free.
    cbn [snd next live JsonObject.m_value]. rewrite Hlive.
    apply set_eq. intros a. set_solver.
  - assumption.
  - assumption.
Qed.

Lemma AsObject_move_then_destroy_witness :
  let '(o, h) := JsonObject.AsString (JsonObject.empty DefaultAllocator) "s" heap0 in
  let this := JsonObject.empty DefaultAllocator in
  owns h (nodes_opt (JsonObject.m_value o) ∪ ∅) (JsonObject.m_value this) /\
  exists d s,
    JsonObject.AsObject_move this (JsonObject.other_object o) = (d, Some s) /\
    JsonObject.m_value d = JsonObject.m_value o /\
    JsonObject.m_wasParseSuccessful d = JsonObject.m_wasParseSuccessful o /\
    JsonObject.m_errorMessage d = JsonObject.m_errorMessage o /\
    JsonObject.m_value s = JsonObject.m_value this /\
    JsonObject.m_errorMessage s = JsonObject.m_errorMessage this /\
    owns (snd (JsonObject.destructor s h)) ∅ (JsonObject.m_value d).
Proof.
  unfold JsonObject.AsString, cJSON_CreateString. rewrite destroy_then_create.
  set (o := JsonObject.set_m_value _ _). set (h := mkHeap _ _).
  assert (H1 : owns h (nodes_opt (JsonObject.m_value o) ∪ ∅)
                 (JsonObject.m_value (JsonObject.empty DefaultAllocator))).
  { unfold owns, heap_ok, separate, h, o.
    cbn [next live nodes_opt JsonObject.m_value JsonObject.set_m_value
         JsonObject.empty heap0 nodes].
    split; [|split; [|split; [|exact I]]]; set_solver by lia. }
  assert (H2 : nodes_opt (JsonObject.m_value o) ## (∅ : gset N)) by set_solver.
  assert (H3 : separate (JsonObject.m_value o)).
  { unfold separate, o. cbn [JsonObject.m_value JsonObject.set_m_value self child
      nodes_list foldr apart]. split; [set_solver | exact I]. }
  split; [exact H1|].
  exact (AsObject_move_then_destroy (JsonObject.empty DefaultAllocator) o h ∅ H1 H2 H3).
Defined.

(** ** Arrays of Documents, read back *)

Lemma map_of_cJSON_m_value (l : list cJSON) :
  map JsonView.m_value (map (fun e => JsonView.of_cJSON (Some e) DefaultAllocator) l) =
  map Some l.
Proof. induction l as [|c l IH]; cbn [map]; [reflexivity|]. now rewrite IH. Qed.

(** X18. [AsArray] makes the root an array with one element per Document
    of the vector that has a tree, in the order of the vector (Documents
    without a tree are passed over): the copy form with duplicates of
    the same shape, the move form with the roots themselves, leaving
    every Document of the vector without a tree.  A View of the result
    hands them out through its own [AsArray]. *)
Theorem AsArray_then_AsArray
    (this : JsonObject.t) (docs : list JsonObject.t) (h : Heap) :
  (exists views,
     JsonView.AsArray (View (fst (JsonObject.AsArray this docs h))) = Returns views /\
     map (fun v => tree_of_opt (JsonView.m_value v)) views =
       map (fun t => Some (tree_of t)) (omap JsonObject.m_value docs)) /\
  (let '(d, docs', h') := JsonObject.AsArray_move this docs h in
   exists views,
     JsonView.AsArray (View d) = Returns views /\
     map JsonView.m_value views = map Some (omap JsonObject.m_value docs) /\
     Forall (fun i => JsonObject.m_value i = None) docs' /\
     length docs' = length docs).
Proof.
  split.
  - destruct (JsonObject.AsArray this docs h) as [d h'] eqn:E. cbn [fst].
    unfold JsonObject.AsArray, cJSON_CreateArray, new_item, bind at 1 in E.
    unfold bind at 1, malloc, ret in E. unfold bind at 1 in E.
    destruct (JsonObject.add_duplicates _ docs _) as [arr h2] eqn:Ea.
    apply add_duplicates_spec in Ea as (copies & -> & Ht & _).
    unfold bind, JsonObject.Destroy, cJSON_Delete, free, ret in E.
    injection E as <- _.
    rewrite AsArray_eq. unfold JsonView.IsListType, children, View, JsonView.of_JsonObject.
    cbn [JsonView.m_value JsonObject.m_value JsonObject.set_m_value cJSON_IsArray
         has_type type set_child cJSON_type_eqb child app].
    eexists. split; [reflexivity|]. rewrite map_map.
    transitivity (map Some (map tree_of copies)); [now rewrite map_map|].
    rewrite Ht. now rewrite map_map.
  - unfold JsonObject.AsArray_move, cJSON_CreateArray, new_item, bind at 1.
    unfold bind at 1, malloc, ret. rewrite adopt_all_eq.
    unfold bind, JsonObject.Destroy, cJSON_Delete, free.
    rewrite AsArray_eq. unfold JsonView.IsListType, children, View, JsonView.of_JsonObject.
    cbn [JsonView.m_value JsonObject.m_value JsonObject.set_m_value cJSON_IsArray
         has_type type set_child cJSON_type_eqb child app].
    eexists. split; [reflexivity|].
    split; [apply map_of_cJSON_m_value|]. split; [|apply length_map].
    clear. induction docs as [|i rest IH]; cbn [map]; constructor;
      [reflexivity | assumption].
Qed.

(** ** Construction from text *)

(** Whatever the parser, the text constructor never aborts: the
    Document holds what the parser returned, the flag tells whether that
    is a tree (neither null nor the invalid marker), the message is empty
    on success and names the place the parser stopped at on failure. *)
Lemma of_text_reports_failure
    (parse : string -> M (option cJSON * string)) (value : String)
    (a : Allocator) (h : Heap) :
  let '(t, rest, h') := parse (c_str value) h in
  let '(d, h'') := JsonObject.of_text parse value a h in
  h'' = h' /\ JsonObject.m_value d = t /\ JsonObject.m_allocator d = a /\
  JsonObject.m_wasParseSuccessful d = is_nonnull t && negb (cJSON_IsInvalid t) /\
  JsonObject.m_errorMessage d =
    (if JsonObject.m_wasParseSuccessful d then EmptyString
     else String.append "Failed to parse JSON at: " rest).
Proof.
  unfold JsonObject.of_text, bind.
  destruct (parse (c_str value) h) as [[t rest] h'].
  destruct t as [n|]; cbn [is_nonnull negb orb andb].
  - destruct (cJSON_IsInvalid (Some n)); unfold ret; repeat split; reflexivity.
  - unfold ret. repeat split; reflexivity.
Qed.
